(** * Trivia game session tools: a shallow embedding of
      [src/mastra/tools/game-tools.ts] and its properties.

    The file follows the source top to bottom: the JavaScript primitives
    the tools rely on (strings, numbers, arrays, [Map]), the data model
    ([Question], [GameState], the [gameStates] registry), the six tools,
    and then the properties of the session state machine. *)

From Stdlib Require Import ZArith QArith Qround List String Ascii Bool Lia.
From Stdlib Require Import Permutation Sorted DecimalString.
Import ListNotations.

Local Open Scope Z_scope.

(* ================================================================== *)
(** ** JavaScript primitives *)
(* ================================================================== *)

Module JS.

(** *** Strings

    A JavaScript string is a sequence of UTF-16 code units.  The model keeps
    the code units below 256 ([string] of the standard library), the range
    U+0000 to U+00FF.  [trim] strips the white space and line terminators of
    that range.  [toUpperCase] follows the Unicode upper-case mapping of that
    range: a-z and the accented letters U+00E0 to U+00FE (but not the
    division sign U+00F7) move down by 32, and the sharp s U+00DF becomes
    the two letters SS.  Two letters of the range have their capital outside
    it: the micro sign U+00B5 (capital U+039C) and y with diaeresis U+00FF
    (capital U+0178).  No upper-cased text of the range contains U+00B5 or
    U+00FF, so in an upper-cased text these two code units stand for the
    two capitals: lengths, letter tests and equality of upper-cased texts,
    which is all the tools do with them, are then exactly the code's. *)

Definition code (c : ascii) : Z := Z.of_N (N_of_ascii c).

(** WhiteSpace and LineTerminator code points: TAB, LF, VT, FF, CR, SP, NBSP. *)
Definition isWhiteSpace (c : ascii) : bool :=
  let n := code c in
  ((9 <=? n) && (n <=? 13)) || (n =? 32) || (n =? 160).

Fixpoint trimStart (s : string) : string :=
  match s with
  | EmptyString => EmptyString
  | String c s' => if isWhiteSpace c then trimStart s' else s
  end.

Fixpoint trimEnd (s : string) : string :=
  match s with
  | EmptyString => EmptyString
  | String c s' =>
      match trimEnd s' with
      | EmptyString => if isWhiteSpace c then EmptyString else String c EmptyString
      | t => String c t
      end
  end.

(** [String.prototype.trim] *)
Definition trim (s : string) : string := trimEnd (trimStart s).

(** The capital of a code unit that has a one-unit capital in the range. *)
Definition upperChar (c : ascii) : ascii :=
  let n := code c in
  if ((97 <=? n) && (n <=? 122))
     || ((224 <=? n) && (n <=? 254) && negb (n =? 247))
  then ascii_of_N (Z.to_N (n - 32)) else c.

(** [String.prototype.toUpperCase] *)
Fixpoint toUpperCase (s : string) : string :=
  match s with
  | EmptyString => EmptyString
  | String c s' =>
      if code c =? 223
      then String "S" (String "S" (toUpperCase s'))
      else String (upperChar c) (toUpperCase s')
  end.

(** [/^[A-D]$/.test(s)]: without the [m] flag [$] only matches at the end of
    the input, so the pattern accepts exactly the four one-letter strings. *)
Definition test_A_D (s : string) : bool :=
  match s with
  | String c EmptyString => (65 <=? code c) && (code c <=? 68)
  | _ => false
  end.

(** [s.charCodeAt(0)] for a non-empty string ([NaN] otherwise, never needed
    here: every call is guarded by [test_A_D]). *)
Definition charCodeAt0 (s : string) : Z :=
  match s with
  | String c _ => code c
  | EmptyString => 0
  end.

(** [s.replace(/pat/g, rep)] for a literal, non-empty pattern: leftmost
    non-overlapping occurrences, left to right.  [skip] counts the code
    units of a matched occurrence that are still to be dropped. *)
Fixpoint replaceAll_from (pat rep s : string) (skip : nat) : string :=
  match s with
  | EmptyString => EmptyString
  | String c s' =>
      match skip with
      | S k => replaceAll_from pat rep s' k
      | O =>
          if String.prefix pat s
          then String.append rep (replaceAll_from pat rep s' (String.length pat - 1))
          else String c (replaceAll_from pat rep s' 0)
      end
  end.

Definition replaceAll (pat rep s : string) : string := replaceAll_from pat rep s 0.

(** *** Numbers

    The counters of a session (streak, hints, skips, question index) only
    ever hold small integers and are modelled in [Z].  The score is a
    JavaScript number that can also become [NaN] (see
    [difficultyMultiplier] below), hence the lifted type. *)

Inductive number : Type :=
| Num (z : Z)
| NaN.

Definition number_add (a b : number) : number :=
  match a, b with
  | Num x, Num y => Num (x + y)
  | _, _ => NaN
  end.

Definition number_sub (a b : number) : number :=
  match a, b with
  | Num x, Num y => Num (x - y)
  | _, _ => NaN
  end.

(** [Math.max(a, b)]: [NaN] as soon as one argument is [NaN]. *)
Definition Math_max (a b : number) : number :=
  match a, b with
  | Num x, Num y => Num (Z.max x y)
  | _, _ => NaN
  end.

(** [a < b]: every comparison with [NaN] is false. *)
Definition number_ltb (a b : number) : bool :=
  match a, b with
  | Num x, Num y => x <? y
  | _, _ => false
  end.

(** [Math.round] on an exact rational: the nearest integer, halves up. *)
Definition Math_round (q : Q) : Z := Qfloor (q + (1 # 2)).

(** *** Double precision

    On the small integers of a session [+], [-] and the products of the
    scoring rule are exact.  A quotient is not: [/] and [*] return the
    double nearest to the exact result, ties going to the even mantissa
    (IEEE 754 binary64, 53 bits of mantissa). *)

(** The integer nearest to [num / den] for [den > 0], ties to even. *)
Definition roundHalfEven (num den : Z) : Z :=
  let f := (num / den)%Z in
  match (2 * (num mod den) ?= den)%Z with
  | Lt => f
  | Gt => (f + 1)%Z
  | Eq => if Z.even f then f else (f + 1)%Z
  end.

(** The exponent [e] with [2^e <= a / b < 2^(e+1)], for positive [a], [b]. *)
Definition binade (a b : Z) : Z :=
  let e0 := (Z.log2 a - Z.log2 b)%Z in
  if (b * 2 ^ Z.max e0 0 <=? a * 2 ^ Z.max (- e0) 0)%Z then e0 else (e0 - 1)%Z.

(** The double nearest to [a / b], for positive [a] and [b] with a quotient
    in the range of the normal doubles: the quotient is scaled to a
    mantissa of 53 bits, rounded, and scaled back. *)
Definition nearestDouble (a b : Z) : Q :=
  let k := (52 - binade a b)%Z in
  let m := roundHalfEven (a * 2 ^ Z.max k 0) (b * 2 ^ Z.max (- k) 0) in
  Qmake (m * 2 ^ Z.max (- k) 0) (Z.to_pos (2 ^ Z.max k 0)).

(** The value a double-precision operation returns for the exact result
    [q]. *)
Definition toDouble (q : Q) : Q :=
  match Qnum q with
  | Z0 => 0%Q
  | Zpos _ => nearestDouble (Qnum q) (Zpos (Qden q))
  | Zneg _ => Qopp (nearestDouble (- Qnum q) (Zpos (Qden q)))
  end.

(** [Math.floor(a / b)] for integers [a] and positive [b]. *)
Definition Math_floor_div (a b : Z) : Z := a / b.

(** *** Arrays *)

(** [arr[i]]: [None] stands for [undefined]. *)
Definition index {A : Type} (arr : list A) (i : Z) : option A :=
  if i <? 0 then None else nth_error arr (Z.to_nat i).

Definition array_length {A : Type} (arr : list A) : Z := Z.of_nat (List.length arr).

(** In-place assignment [arr[i] = v] for an index inside the array. *)
Fixpoint assign {A : Type} (arr : list A) (i : nat) (v : A) : list A :=
  match arr, i with
  | [], _ => []
  | _ :: tl, O => v :: tl
  | x :: tl, S i' => x :: assign tl i' v
  end.

(** *** Map: insertion-ordered, [set] on a present key keeps its position. *)

Definition Map (V : Type) : Type := list (string * V).

Fixpoint Map_get {V : Type} (m : Map V) (k : string) : option V :=
  match m with
  | [] => None
  | (k', v) :: tl => if String.eqb k' k then Some v else Map_get tl k
  end.

Fixpoint Map_set {V : Type} (m : Map V) (k : string) (v : V) : Map V :=
  match m with
  | [] => [(k, v)]
  | (k', v') :: tl =>
      if String.eqb k' k then (k', v) :: tl else (k', v') :: Map_set tl k v
  end.

Definition Map_size {V : Type} (m : Map V) : Z := array_length m.

(** *** Exceptions: a tool either returns or throws [new Error(msg)]. *)

Inductive completion (A : Type) : Type :=
| Return (a : A)
| Throw (msg : string).

Arguments Return {A} a.
Arguments Throw {A} msg.

End JS.

Import JS.
Local Open Scope string_scope.
Local Open Scope list_scope.
Local Open Scope Z_scope.

(* ================================================================== *)
(** ** Data model *)
(* ================================================================== *)

(** [type FetchQuestion]: one record of the content provider's response. *)
Module FetchQuestion.
Record t : Type := mk {
  category : string;
  type : string;
  difficulty : string;
  question : string;
  correct_answer : string;
  incorrect_answers : list string
}.
End FetchQuestion.

(** [interface Question] *)
Module Question.
Record t : Type := mk {
  id : string;
  category : string;
  difficulty : string;
  question : string;
  options : list string;
  correct : string;
  answered : bool;
  userAnswer : option string
}.

(** [q.answered = true; q.userAnswer = answer] *)
Definition record_answer (q : t) (answer : string) : t :=
  mk (id q) (category q) (difficulty q) (question q) (options q) (correct q)
     true (Some answer).
End Question.

(** [interface GameState] *)
Module GameState.
Record t : Type := mk {
  playerId : string;
  score : number;
  currentQuestionIndex : Z;
  questions : list Question.t;
  streak : Z;
  hintsUsed : Z;
  skipsUsed : Z;
  lastPlayed : string
}.
End GameState.

(** [const gameStates = new Map<string, GameState>()] *)
Definition Store : Type := Map GameState.t.

Definition emptyStore : Store := [].

(** The public view of a question that the tools return
    ([currentQuestion] / [nextQuestion]). *)
Module QuestionView.
Record t : Type := mk {
  index : Z;
  question : string;
  options : list string;
  category : string;
  difficulty : string
}.
End QuestionView.

Definition view (position : Z) (q : Question.t) : QuestionView.t :=
  QuestionView.mk position (Question.question q) (Question.options q)
                  (Question.category q) (Question.difficulty q).

(* ================================================================== *)
(** ** Utilities *)
(* ================================================================== *)

Definition dquote : string := String (ascii_of_nat 34) "".
Definition eacute : string := String (ascii_of_nat 233) "".

(** [function decodeHtml(str)] *)
Definition decodeHtml (str : string) : string :=
  if String.eqb str "" then str else
  replaceAll "&eacute;" eacute
  (replaceAll "&hellip;" "..."
  (replaceAll "&gt;" ">"
  (replaceAll "&lt;" "<"
  (replaceAll "&rdquo;" dquote
  (replaceAll "&ldquo;" dquote
  (replaceAll "&rsquo;" "'"
  (replaceAll "&amp;" "&"
  (replaceAll "&#039;" "'"
  (replaceAll "&quot;" dquote str))))))))).

(** [[a[i], a[j]] = [a[j], a[i]]] *)
Definition swap {A : Type} (a : list A) (i j : nat) : list A :=
  match nth_error a i, nth_error a j with
  | Some x, Some y => assign (assign a i y) j x
  | _, _ => a
  end.

(** The loop of [shuffleArray], from index [i] down to 1.  [draw i] is the
    value of [Math.floor(Math.random() * (i + 1))] drawn at index [i]. *)
Fixpoint shuffle_from {A : Type} (draw : nat -> nat) (i : nat) (shuffled : list A)
  : list A :=
  match i with
  | O => shuffled
  | S i' => shuffle_from draw i' (swap shuffled i (draw i))
  end.

(** [function shuffleArray<T>(array)] *)
Definition shuffleArray {A : Type} (draw : nat -> nat) (array : list A) : list A :=
  shuffle_from draw (List.length array - 1) array.

(** Decimal rendering of an array position, for [`q-${index + 1}`]. *)
Definition decimal (n : nat) : string :=
  DecimalString.NilZero.string_of_uint (Nat.to_uint n).

(* ================================================================== *)
(** ** The tools *)
(* ================================================================== *)

(** *** [startGameTool] *)

Inductive StartMessage : Type :=
| Welcome (questionsCount : Z)      (* "Welcome to Daily Trivia! You have N questions ..." *)
| StartFailed.                      (* "Failed to start game. Please try again later." *)

Module StartOutput.
Record t : Type := mk {
  success : bool;
  message : StartMessage;
  currentQuestion : option QuestionView.t;
  totalQuestions : Z
}.
End StartOutput.

Fixpoint mapi_from {A B : Type} (f : A -> nat -> B) (i : nat) (l : list A) : list B :=
  match l with
  | [] => []
  | x :: tl => f x i :: mapi_from f (S i) tl
  end.

(** [data.results.map((q, index) => ({ ... }))]; [draw index] feeds the
    shuffle of question [index]. *)
Definition buildQuestions (draw : nat -> nat -> nat) (results : list FetchQuestion.t)
  : list Question.t :=
  mapi_from (fun q index =>
    Question.mk
      (String.append "q-" (decimal (index + 1)))
      (decodeHtml (FetchQuestion.category q))
      (FetchQuestion.difficulty q)
      (decodeHtml (FetchQuestion.question q))
      (shuffleArray (draw index)
         (List.map decodeHtml (FetchQuestion.incorrect_answers q)
            ++ [decodeHtml (FetchQuestion.correct_answer q)]))
      (decodeHtml (FetchQuestion.correct_answer q))
      false
      None) 0%nat results.

(** [response] is the provider's [data.results]: [None] when the fetch, the
    JSON decoding or the field is missing, all of which end in the [catch]
    branch.  [today] is [new Date().toISOString().split('T')[0]]. *)
Definition startGameTool (draw : nat -> nat -> nat) (today : string)
    (response : option (list FetchQuestion.t))
    (playerId : string) (questionsCount : option Z) (gameStates : Store)
  : StartOutput.t * Store :=
  let questionsCount := match questionsCount with Some n => n | None => 10 end in
  let failed := (StartOutput.mk false StartFailed None 0, gameStates) in
  match response with
  | None => failed
  | Some results =>
      match buildQuestions draw results with
      | [] => failed
      | (currentQuestion :: _) as questions =>
          let gameState :=
            GameState.mk playerId (Num 0) 0 questions 0 0 0 today in
          (StartOutput.mk true (Welcome questionsCount)
             (Some (view 1 currentQuestion))
             (array_length questions),
           Map_set gameStates playerId gameState)
      end
  end.

(** *** [answerQuestionTool] *)

(** Lines 191-203: the verdict on a raw answer for the current question. *)
Definition isCorrect (currentQuestion : Question.t) (answer : string) : bool :=
  let normalizedUserAnswer := toUpperCase (trim answer) in
  let normalizedCorrectAnswer := toUpperCase (Question.correct currentQuestion) in
  if test_A_D normalizedUserAnswer then
    let optionIndex := charCodeAt0 normalizedUserAnswer - 65 in
    match index (Question.options currentQuestion) optionIndex with
    | Some option => String.eqb option (Question.correct currentQuestion)
    | None => false
    end
  else String.eqb normalizedUserAnswer normalizedCorrectAnswer.

(** The value of a property read on the object literal
    [{ easy: 1, medium: 1.5, hard: 2 }]. *)
Inductive property : Type :=
| OwnNumber (q : Q)     (* one of the three own properties *)
| Inherited             (* a function or object found on [Object.prototype] *)
| Undefined.

(** The property names every object literal inherits from [Object.prototype]. *)
Definition objectPrototypeKeys : list string :=
  [ "constructor"; "__proto__"; "hasOwnProperty"; "isPrototypeOf";
    "propertyIsEnumerable"; "toLocaleString"; "toString"; "valueOf";
    "__defineGetter__"; "__defineSetter__"; "__lookupGetter__";
    "__lookupSetter__" ].

Definition multiplierTable (difficulty : string) : property :=
  if String.eqb difficulty "easy" then OwnNumber 1
  else if String.eqb difficulty "medium" then OwnNumber (3 # 2)
  else if String.eqb difficulty "hard" then OwnNumber 2
  else if List.existsb (String.eqb difficulty) objectPrototypeKeys then Inherited
  else Undefined.

(** [{...}[difficulty] || 1]: the own numbers and the inherited values are
    truthy, [undefined] is not. *)
Definition difficultyMultiplier (difficulty : string) : property :=
  match multiplierTable difficulty with
  | Undefined => OwnNumber 1
  | OwnNumber q => if Qeq_bool q 0 then OwnNumber 1 else OwnNumber q
  | Inherited => Inherited
  end.

Definition basePoints : Z := 10.

(** [Math.round(basePoints * difficultyMultiplier)]: multiplying by a
    function or an object gives [NaN]. *)
Definition difficultyPoints (difficulty : string) : number :=
  match difficultyMultiplier difficulty with
  | OwnNumber q => Num (Math_round (inject_Z basePoints * q))
  | _ => NaN
  end.

(** [streak >= 3 ? Math.floor(streak / 3) * 2 : 0] *)
Definition streakBonus (streak : Z) : Z :=
  if 3 <=? streak then Math_floor_div streak 3 * 2 else 0.

(** [scoreGained] of a correct answer; [streak] is the incremented streak. *)
Definition scoreGained (difficulty : string) (streak : Z) : number :=
  number_add (difficultyPoints difficulty) (Num (streakBonus streak)).

Inductive AnswerMessage : Type :=
| CorrectMessage (scoreGained : number) (streakBonus : option Z) (streak : Z)
    (final : option (number * Z))
| IncorrectMessage (correctAnswer : string) (final : option (number * Z)).

Module AnswerOutput.
Record t : Type := mk {
  correct : bool;
  score : number;
  message : AnswerMessage;
  correctAnswer : string;
  streak : Z;
  nextQuestion : option QuestionView.t;
  gameCompleted : bool
}.
End AnswerOutput.

Definition noActiveGameStart : string := "No active game found. Please start a new game.".
Definition noActiveGame : string := "No active game found.".
Definition noCurrentQuestion : string := "No current question found.".
Definition typeError : string := "Cannot read properties of undefined (reading 'question')".

(** [gameState.currentQuestionIndex >= gameState.questions.length] *)
Definition completed (gameState : GameState.t) : bool :=
  array_length (GameState.questions gameState) <=? GameState.currentQuestionIndex gameState.

Definition answerQuestionTool (playerId answer : string) (gameStates : Store)
  : completion AnswerOutput.t * Store :=
  match Map_get gameStates playerId with
  | None => (Throw noActiveGameStart, gameStates)
  | Some gameState =>
      let i := GameState.currentQuestionIndex gameState in
      match index (GameState.questions gameState) i with
      | None => (Throw noCurrentQuestion, gameStates)
      | Some currentQuestion =>
          let isCorrect := isCorrect currentQuestion answer in
          let questions :=
            assign (GameState.questions gameState) (Z.to_nat i)
                   (Question.record_answer currentQuestion answer) in
          let streak := if isCorrect then GameState.streak gameState + 1 else 0 in
          let gained :=
            if isCorrect then scoreGained (Question.difficulty currentQuestion) streak
            else Num 0 in
          let score :=
            if isCorrect then number_add (GameState.score gameState) gained
            else GameState.score gameState in
          let gameState' :=
            GameState.mk (GameState.playerId gameState) score (i + 1) questions streak
              (GameState.hintsUsed gameState) (GameState.skipsUsed gameState)
              (GameState.lastPlayed gameState) in
          let gameCompleted := completed gameState' in
          let final :=
            if gameCompleted then Some (score, array_length questions * 10) else None in
          let message :=
            if isCorrect then
              CorrectMessage gained
                (if 0 <? streakBonus streak then Some (streakBonus streak) else None)
                streak final
            else IncorrectMessage (Question.correct currentQuestion) final in
          let output nextQuestion :=
            AnswerOutput.mk isCorrect score message (Question.correct currentQuestion)
              streak nextQuestion gameCompleted in
          if gameCompleted then
            (Return (output None), Map_set gameStates playerId gameState')
          else
            match index questions (i + 1) with
            | Some nextQ =>
                (Return (output (Some (view (i + 1 + 1) nextQ))),
                 Map_set gameStates playerId gameState')
            | None => (Throw typeError, Map_set gameStates playerId gameState')
            end
      end
  end.

(** *** [getHintTool] *)

Inductive HintMessage : Type :=
| HintsExhausted                (* "You have used all available hints for this game." *)
| HintUsed (penalty : Z).       (* "Hint used! Two options eliminated. (-N points)" *)

Module HintOutput.
Record t : Type := mk {
  success : bool;
  message : HintMessage;
  remainingOptions : list string;
  hintsUsed : Z;
  scorePenalty : Z
}.
End HintOutput.

Definition hintPenalty : Z := 2.

(** [pick] is the value of [Math.floor(Math.random() * wrongAnswers.length)],
    below the length because [Math.random() < 1]; [draw] feeds the shuffle
    of the two remaining options. *)
Definition getHintTool (pick : nat) (draw : nat -> nat) (playerId : string)
    (gameStates : Store) : completion HintOutput.t * Store :=
  match Map_get gameStates playerId with
  | None => (Throw noActiveGame, gameStates)
  | Some gameState =>
      match index (GameState.questions gameState)
                  (GameState.currentQuestionIndex gameState) with
      | None => (Throw noCurrentQuestion, gameStates)
      | Some currentQuestion =>
          if 3 <=? GameState.hintsUsed gameState then
            (Return (HintOutput.mk false HintsExhausted
                       (Question.options currentQuestion)
                       (GameState.hintsUsed gameState) 0),
             gameStates)
          else
            let correct := Question.correct currentQuestion in
            let wrongAnswers :=
              List.filter (fun opt => negb (String.eqb opt correct))
                          (Question.options currentQuestion) in
            let randomWrongAnswer :=
              match wrongAnswers with
              | [] => correct
              | _ => List.nth pick wrongAnswers correct
              end in
            let remainingOptions := shuffleArray draw [correct; randomWrongAnswer] in
            let gameState' :=
              GameState.mk (GameState.playerId gameState)
                (Math_max (Num 0) (number_sub (GameState.score gameState) (Num hintPenalty)))
                (GameState.currentQuestionIndex gameState)
                (GameState.questions gameState)
                (GameState.streak gameState)
                (GameState.hintsUsed gameState + 1)
                (GameState.skipsUsed gameState)
                (GameState.lastPlayed gameState) in
            (Return (HintOutput.mk true (HintUsed hintPenalty) remainingOptions
                       (GameState.hintsUsed gameState') hintPenalty),
             Map_set gameStates playerId gameState')
      end
  end.

(** *** [skipQuestionTool] *)

Inductive SkipMessage : Type :=
| SkipsExhausted                    (* "You have used all available skips for this game." *)
| SkippedCompleted (score : number) (* "Question skipped. Game completed! Final score: N" *)
| Skipped (penalty : Z).            (* "Question skipped. (-N points)" *)

Module SkipOutput.
Record t : Type := mk {
  success : bool;
  message : SkipMessage;
  nextQuestion : option QuestionView.t;
  skipsUsed : Z;
  scorePenalty : Z
}.
End SkipOutput.

Definition skipPenalty : Z := 1.

Definition skipQuestionTool (playerId : string) (gameStates : Store)
  : completion SkipOutput.t * Store :=
  match Map_get gameStates playerId with
  | None => (Throw noActiveGame, gameStates)
  | Some gameState =>
      if 2 <=? GameState.skipsUsed gameState then
        (Return (SkipOutput.mk false SkipsExhausted None
                   (GameState.skipsUsed gameState) 0),
         gameStates)
      else
        let i := GameState.currentQuestionIndex gameState in
        let gameState' :=
          GameState.mk (GameState.playerId gameState)
            (Math_max (Num 0) (number_sub (GameState.score gameState) (Num skipPenalty)))
            (i + 1)
            (GameState.questions gameState)
            0
            (GameState.hintsUsed gameState)
            (GameState.skipsUsed gameState + 1)
            (GameState.lastPlayed gameState) in
        let output message nextQuestion :=
          SkipOutput.mk true message nextQuestion
            (GameState.skipsUsed gameState') skipPenalty in
        if completed gameState' then
          (Return (output (SkippedCompleted (GameState.score gameState')) None),
           Map_set gameStates playerId gameState')
        else
          match index (GameState.questions gameState') (i + 1) with
          | Some nextQ =>
              (Return (output (Skipped skipPenalty) (Some (view (i + 1 + 1) nextQ))),
               Map_set gameStates playerId gameState')
          | None => (Throw typeError, Map_set gameStates playerId gameState')
          end
  end.

(** *** [getLeaderboardTool] *)

Module Entry.
Record t : Type := mk {
  playerId : string;
  score : number;
  streak : Z;
  questionsAnswered : Z
}.
End Entry.

Module LeaderboardOutput.
Record t : Type := mk {
  leaderboard : list Entry.t;
  totalPlayers : Z
}.
End LeaderboardOutput.

(** [([playerId, state]) => ({ ... })] *)
Definition toEntry (kv : string * GameState.t) : Entry.t :=
  let (playerId, state) := kv in
  Entry.mk playerId (GameState.score state) (GameState.streak state)
           (array_length (List.filter Question.answered (GameState.questions state))).

(** [(a, b) => b.score - a.score] *)
Definition compareFn (a b : Entry.t) : number :=
  number_sub (Entry.score b) (Entry.score a).

(** The comparator as [Array.prototype.sort] reads it: [NaN] counts as [+0]. *)
Definition sortCompare (a b : Entry.t) : Z :=
  match compareFn a b with
  | Num v => v
  | NaN => 0
  end.

(** [Array.prototype.sort] is stable: elements the comparator does not
    separate keep their order.  When every score is a number the comparator
    is a consistent one, the sorted array is determined by that, and stable
    insertion from the right computes it.  When a score is [NaN] the
    comparator is not consistent and the language leaves the order to the
    engine: [sort] is then one arrangement among those an engine may
    return.  The properties of the order are stated for numeric scores, or
    for every arrangement of the entries. *)
Fixpoint insert (x : Entry.t) (sorted : list Entry.t) : list Entry.t :=
  match sorted with
  | [] => [x]
  | y :: tl => if sortCompare x y <=? 0 then x :: sorted else y :: insert x tl
  end.

Fixpoint sort (entries : list Entry.t) : list Entry.t :=
  match entries with
  | [] => []
  | x :: tl => insert x (sort tl)
  end.

Definition getLeaderboardTool (gameStates : Store) : LeaderboardOutput.t * Store :=
  let entries := List.firstn 10 (sort (List.map toEntry gameStates)) in
  (LeaderboardOutput.mk entries (Map_size gameStates), gameStates).

(** *** [getGameStatsTool] *)

Module StatsOutput.
Record t : Type := mk {
  playerId : string;
  score : number;
  currentQuestion : Z;
  totalQuestions : Z;
  streak : Z;
  hintsUsed : Z;
  skipsUsed : Z;
  correctAnswers : Z;
  accuracy : Z
}.
End StatsOutput.

(** The callback of the second [filter] (lines 462-471).  The options it
    reads are those of [gameState.questions[0]]; the callback only runs on
    elements of [questions], so that first question exists. *)
Definition countsAsCorrect (gameState : GameState.t) (q : Question.t) : bool :=
  match Question.userAnswer q with
  | None => false
  | Some userAnswer =>
      if String.eqb userAnswer "" then false else
      let ua := toUpperCase userAnswer in
      if (Z.of_nat (String.length ua) =? 1) && test_A_D ua then
        let idx := charCodeAt0 ua - 65 in
        let firstOptions :=
          match index (GameState.questions gameState) 0 with
          | Some first => Question.options first
          | None => []
          end in
        match index firstOptions idx with
        | Some opt => String.eqb opt (Question.correct q)
        | None => false
        end
      else String.eqb ua (toUpperCase (Question.correct q))
  end.

(** [Math.round(n > 0 ? (correct / n) * 100 : 0)]: the quotient and the
    product are double-precision operations, [Math.round] is exact.  The
    product can fall just below a half where the exact one is a half: 23 of
    40 gives 57.49999999999999 and the accuracy 57. *)
Definition accuracyOf (correctAnswers answered : Z) : Z :=
  Math_round
    (if 0 <? answered
     then toDouble (toDouble (inject_Z correctAnswers / inject_Z answered)
                    * inject_Z 100)
     else inject_Z 0)%Q.

Definition getGameStatsTool (playerId : string) (gameStates : Store)
  : completion StatsOutput.t * Store :=
  match Map_get gameStates playerId with
  | None => (Throw noActiveGame, gameStates)
  | Some gameState =>
      let answeredQuestions :=
        List.filter Question.answered (GameState.questions gameState) in
      let correctAnswers :=
        array_length (List.filter (countsAsCorrect gameState) answeredQuestions) in
      let accuracy := accuracyOf correctAnswers (array_length answeredQuestions) in
      (Return (StatsOutput.mk playerId
                 (GameState.score gameState)
                 (GameState.currentQuestionIndex gameState + 1)
                 (array_length (GameState.questions gameState))
                 (GameState.streak gameState)
                 (GameState.hintsUsed gameState)
                 (GameState.skipsUsed gameState)
                 correctAnswers
                 accuracy),
       gameStates)
  end.

(* ================================================================== *)
(** ** The session state machine *)
(* ================================================================== *)

(** One call of a tool, with the values of its random draws and of the
    content provider where it has any. *)
Inductive Call : Type :=
| StartGame (draw : nat -> nat -> nat) (today : string)
    (response : option (list FetchQuestion.t))
    (playerId : string) (questionsCount : option Z)
| AnswerQuestion (playerId answer : string)
| GetHint (pick : nat) (draw : nat -> nat) (playerId : string)
| SkipQuestion (playerId : string)
| GetLeaderboard
| GetGameStats (playerId : string).

(** The registry after a call (thrown errors leave what was mutated). *)
Definition after (gameStates : Store) (c : Call) : Store :=
  match c with
  | StartGame draw today response playerId questionsCount =>
      snd (startGameTool draw today response playerId questionsCount gameStates)
  | AnswerQuestion playerId answer => snd (answerQuestionTool playerId answer gameStates)
  | GetHint pick draw playerId => snd (getHintTool pick draw playerId gameStates)
  | SkipQuestion playerId => snd (skipQuestionTool playerId gameStates)
  | GetLeaderboard => snd (getLeaderboardTool gameStates)
  | GetGameStats playerId => snd (getGameStatsTool playerId gameStates)
  end.

Definition afterAll (calls : list Call) : Store := List.fold_left after calls emptyStore.

(** The registries the process can hold: those some sequence of calls
    produces from the empty [Map]. *)
Definition reachable (gameStates : Store) : Prop :=
  exists calls, gameStates = afterAll calls.

(** [x < 0] on a score. *)
Definition negative (x : number) : bool := number_ltb x (Num 0).

(** What every stored session satisfies. *)
Record session_ok (gameState : GameState.t) : Prop := {
  ok_score : negative (GameState.score gameState) = false;
  ok_index : 0 <= GameState.currentQuestionIndex gameState;
  ok_streak : 0 <= GameState.streak gameState;
  ok_hints : 0 <= GameState.hintsUsed gameState <= 3;
  ok_skips : 0 <= GameState.skipsUsed gameState <= 2
}.

Definition store_ok (gameStates : Store) : Prop :=
  Forall (fun kv => session_ok (snd kv)) gameStates.

(** The session is at a question that is still to be answered. *)
Definition awaiting (gameStates : Store) (playerId : string)
    (gameState : GameState.t) (currentQuestion : Question.t) : Prop :=
  Map_get gameStates playerId = Some gameState /\
  index (GameState.questions gameState) (GameState.currentQuestionIndex gameState)
    = Some currentQuestion.

(** The same registry with every recorded raw answer forgotten. *)
Definition forgetAnswer (q : Question.t) : Question.t :=
  Question.mk (Question.id q) (Question.category q) (Question.difficulty q)
    (Question.question q) (Question.options q) (Question.correct q)
    (Question.answered q) None.

Definition forgetState (gameState : GameState.t) : GameState.t :=
  GameState.mk (GameState.playerId gameState) (GameState.score gameState)
    (GameState.currentQuestionIndex gameState)
    (List.map forgetAnswer (GameState.questions gameState))
    (GameState.streak gameState) (GameState.hintsUsed gameState)
    (GameState.skipsUsed gameState) (GameState.lastPlayed gameState).

Definition forgetAnswers (gameStates : Store) : Store :=
  List.map (fun kv => (fst kv, forgetState (snd kv))) gameStates.

(** The raw answer that names option [i] by its letter: "A" for 0, "B" for 1, ... *)
Definition letterOf (i : Z) : string :=
  String (ascii_of_N (Z.to_N (65 + i))) EmptyString.

(** The scoring rule as the specification words it. *)
Definition spec_multiplier (difficulty : string) : Q :=
  if String.eqb difficulty "easy" then 1
  else if String.eqb difficulty "medium" then 3 # 2
  else if String.eqb difficulty "hard" then 2
  else 1.

Definition spec_pointsForCorrectAnswer (difficulty : string) (streak : Z) : Z :=
  Math_round (10 * spec_multiplier difficulty)
  + (if 3 <=? streak then (streak / 3) * 2 else 0).

(** The verdict on a recorded answer as the specification words it for the
    statistics: the rule of answer submission, on the question's own
    options. *)
Definition spec_correctAnswers (gameState : GameState.t) : Z :=
  array_length
    (List.filter
       (fun q => match Question.userAnswer q with
                 | Some raw => isCorrect q raw
                 | None => false
                 end)
       (List.filter Question.answered (GameState.questions gameState))).

(** Descending order of two leaderboard scores. *)
Definition score_ge (a b : Entry.t) : Prop :=
  match Entry.score a, Entry.score b with
  | Num x, Num y => y <= x
  | _, _ => False
  end.

Definition numeric (x : number) : Prop := x <> NaN.


Definition numericEntry (e : Entry.t) : Prop := numeric (Entry.score e).

(* ------------------------------------------------------------------ *)
(** *** The sessions the state changes are stated with *)

(** The session an accepted answer leaves behind. *)
Definition answer_state (gameState : GameState.t) (currentQuestion : Question.t)
    (answer : string) : GameState.t :=
  let verdict := isCorrect currentQuestion answer in
  let streak := if verdict then GameState.streak gameState + 1 else 0 in
  GameState.mk (GameState.playerId gameState)
    (if verdict
     then number_add (GameState.score gameState)
            (scoreGained (Question.difficulty currentQuestion) streak)
     else GameState.score gameState)
    (GameState.currentQuestionIndex gameState + 1)
    (assign (GameState.questions gameState)
       (Z.to_nat (GameState.currentQuestionIndex gameState))
       (Question.record_answer currentQuestion answer))
    streak
    (GameState.hintsUsed gameState) (GameState.skipsUsed gameState)
    (GameState.lastPlayed gameState).

(** The session a granted hint leaves behind. *)
Definition hint_state (gameState : GameState.t) : GameState.t :=
  GameState.mk (GameState.playerId gameState)
    (Math_max (Num 0) (number_sub (GameState.score gameState) (Num hintPenalty)))
    (GameState.currentQuestionIndex gameState)
    (GameState.questions gameState)
    (GameState.streak gameState)
    (GameState.hintsUsed gameState + 1)
    (GameState.skipsUsed gameState)
    (GameState.lastPlayed gameState).

(** The session a granted skip leaves behind. *)
Definition skip_state (gameState : GameState.t) : GameState.t :=
  GameState.mk (GameState.playerId gameState)
    (Math_max (Num 0) (number_sub (GameState.score gameState) (Num skipPenalty)))
    (GameState.currentQuestionIndex gameState + 1)
    (GameState.questions gameState)
    0
    (GameState.hintsUsed gameState)
    (GameState.skipsUsed gameState + 1)
    (GameState.lastPlayed gameState).

(* ------------------------------------------------------------------ *)
(** *** Games whose difficulties name no inherited property *)

Definition plainDifficulty (difficulty : string) : Prop :=
  List.existsb (String.eqb difficulty) objectPrototypeKeys = false.

Definition plainCall (c : Call) : Prop :=
  match c with
  | StartGame _ _ (Some results) _ _ =>
      Forall (fun q => plainDifficulty (FetchQuestion.difficulty q)) results
  | _ => True
  end.

Definition plainSession (gameState : GameState.t) : Prop :=
  numeric (GameState.score gameState)
  /\ Forall (fun q => plainDifficulty (Question.difficulty q))
       (GameState.questions gameState).

(* ------------------------------------------------------------------ *)
(** *** Sample games *)

(** Draws that leave every array in its order ([j = i] at each step): the
    correct answer stays last, under the letter D. *)
Definition keepOrder : nat -> nat -> nat := fun _ i => i.

Definition provided (difficulty correct_answer : string)
    (incorrect_answers : list string) : FetchQuestion.t :=
  FetchQuestion.mk "Geography" "multiple" difficulty "Which one?" correct_answer
    incorrect_answers.

Definition capitals : list FetchQuestion.t :=
  [ provided "easy" "Paris" ["Rome"; "Oslo"; "Bern"];
    provided "medium" "Lima" ["Quito"; "Bogota"; "Sucre"];
    provided "hard" "Cairo" ["Tunis"; "Rabat"; "Accra"] ].

Definition start (results : list FetchQuestion.t) (playerId : string) : Call :=
  StartGame keepOrder "2026-01-01" (Some results) playerId None.

Definition hint (playerId : string) : Call := GetHint 0 (fun i => i) playerId.

(** A fresh three-question game. *)
Definition freshGame : Store := afterAll [start capitals "p1"].

(** Three hints and two skips later: both allowances are used up and the
    third question is current. *)
Definition spentGame : Store :=
  afterAll [start capitals "p1"; hint "p1"; hint "p1"; hint "p1";
            SkipQuestion "p1"; SkipQuestion "p1"].

(** A one-question game played to its end. *)
Definition finishedGame : Store :=
  afterAll [start [provided "easy" "Paris" ["Rome"; "Oslo"; "Bern"]] "p1";
            AnswerQuestion "p1" "D"].

(** A game whose only question carries a difficulty that names a property
    of [Object.prototype]. *)
Definition oddDifficultyGame : Store :=
  afterAll [start [provided "constructor" "Paris" ["Rome"; "Oslo"; "Bern"]] "p1"].

(** A game whose options are themselves the letters: A, C, D, B in that
    order, B being correct. *)
Definition letterGame : Store :=
  afterAll [start [provided "easy" "B" ["A"; "C"; "D"]] "p1"].

(** Two questions, both answered with the letter of their correct option. *)
Definition twoCorrectLetters : Store :=
  afterAll [start capitals "p1"; AnswerQuestion "p1" "D"; AnswerQuestion "p1" "D"].

(** The first question answered with its correct letter, in lower case and
    followed by a space. *)
Definition paddedLetter : Store :=
  afterAll [start capitals "p1"; AnswerQuestion "p1" "d "].

(** A game with two options that differ by case only: paris, Rome, Oslo,
    Paris in that order, Paris being correct. *)
Definition caseGame : Store :=
  afterAll [start [provided "easy" "Paris" ["paris"; "Rome"; "Oslo"]] "p1"].

(** Three players on the board. *)
Definition threePlayers : Store :=
  afterAll [start capitals "ann"; start capitals "bob"; start capitals "cy";
            AnswerQuestion "bob" "D"; AnswerQuestion "cy" "D"; AnswerQuestion "cy" "D"].

Ltac each_code_unit c :=
  destruct c as [[] [] [] [] [] [] [] []]; reflexivity.

(* ------------------------------------------------------------------ *)
(** *** Notions the further properties are stated with *)

(** The draws [Math.floor(Math.random() * (i + 1))] can produce: a value in
    [0, i] at every loop index [i]. *)
Definition inRange (draw : nat -> nat) : Prop := forall i, (draw i <= i)%nat.

(** Calls whose shuffles use such draws. *)
Definition validCall (c : Call) : Prop :=
  match c with
  | StartGame draw _ _ _ _ => forall index, inRange (draw index)
  | GetHint _ draw _ => inRange draw
  | _ => True
  end.

(** The player a call names, if it names one. *)
Definition playerOf (c : Call) : option string :=
  match c with
  | StartGame _ _ _ playerId _ => Some playerId
  | AnswerQuestion playerId _ => Some playerId
  | GetHint _ _ playerId => Some playerId
  | SkipQuestion playerId => Some playerId
  | GetLeaderboard => None
  | GetGameStats playerId => Some playerId
  end.

Definition isStart (c : Call) : bool :=
  match c with
  | StartGame _ _ _ _ _ => true
  | _ => false
  end.

(** The string holds the code unit of [&]. *)
Fixpoint hasAmpersand (s : string) : bool :=
  match s with
  | EmptyString => false
  | String c s' => Ascii.eqb c "&" || hasAmpersand s'
  end.

(** A question as it was loaded: the answer mark and the raw answer reset. *)
Definition asLoaded (q : Question.t) : Question.t :=
  Question.mk (Question.id q) (Question.category q) (Question.difficulty q)
    (Question.question q) (Question.options q) (Question.correct q) false None.

(** [questions.filter(q => q.answered).length] *)
Definition answeredCount (gameState : GameState.t) : Z :=
  array_length (List.filter Question.answered (GameState.questions gameState)).

(** The answer mark and the raw answer of a question go together. *)
Definition markConsistent (q : Question.t) : Prop :=
  Question.answered q = true <-> Question.userAnswer q <> None.

(** The registry after one player gave the [answers] in turn. *)
Definition afterAnswers (playerId : string) (answers : list string)
    (gameStates : Store) : Store :=
  List.fold_left (fun st answer => after st (AnswerQuestion playerId answer))
    answers gameStates.

(** Where the session a player holds after a call comes from. *)
Inductive origin (gameStates : Store) (call : Call) (playerId : string)
    (gameState' : GameState.t) : Prop :=
| Untouched :
    Map_get gameStates playerId = Some gameState' ->
    origin gameStates call playerId gameState'
| Started draw today results questionsCount :
    call = StartGame draw today (Some results) playerId questionsCount ->
    buildQuestions draw results <> [] ->
    gameState'
    = GameState.mk playerId (Num 0) 0 (buildQuestions draw results) 0 0 0 today ->
    origin gameStates call playerId gameState'
| Answered gameState currentQuestion answer :
    call = AnswerQuestion playerId answer ->
    awaiting gameStates playerId gameState currentQuestion ->
    gameState' = answer_state gameState currentQuestion answer ->
    origin gameStates call playerId gameState'
| Hinted gameState currentQuestion pick draw :
    call = GetHint pick draw playerId ->
    awaiting gameStates playerId gameState currentQuestion ->
    GameState.hintsUsed gameState < 3 ->
    gameState' = hint_state gameState ->
    origin gameStates call playerId gameState'
| SkippedOver gameState :
    call = SkipQuestion playerId ->
    Map_get gameStates playerId = Some gameState ->
    GameState.skipsUsed gameState < 2 ->
    gameState' = skip_state gameState ->
    origin gameStates call playerId gameState'.

(** The closing summary of an answer message: the score and the total it
    is shown against, when the game is over. *)
Definition finalSummary (m : AnswerMessage) : option (number * Z) :=
  match m with
  | CorrectMessage _ _ _ final => final
  | IncorrectMessage _ final => final
  end.

(** The entries of a ranking that carry the score [s]. *)
Definition withScore (s : number) (entries : list Entry.t) : list Entry.t :=
  List.filter
    (fun e => match Entry.score e, s with
              | Num x, Num y => x =? y
              | NaN, NaN => true
              | _, _ => false
              end) entries.

(** Two answers given as text: one right, one wrong. *)
Definition plainTextGame : Store :=
  afterAll [start capitals "p1"; AnswerQuestion "p1" "paris";
            AnswerQuestion "p1" "Quito"].

(** A game whose correct answer is stored with a space behind it. *)
Definition paddedAnswerGame : Store :=
  afterAll [start [provided "easy" "Paris " ["Rome"; "Oslo"; "Bern"]] "p1"].

(** A board with a score that is not a number: "c" answers a question whose
    difficulty names an inherited property, and is registered between "a"
    with 10 points and "d" with 15. *)
Definition nanBoard : Store :=
  afterAll [start capitals "a"; AnswerQuestion "a" "D";
            start [provided "constructor" "Paris" ["Rome"; "Oslo"; "Bern"]] "c";
            AnswerQuestion "c" "D";
            start [provided "medium" "Lima" ["Quito"; "Bogota"; "Sucre"]] "d";
            AnswerQuestion "d" "D"].

(** The capital of [eacute], U+00C9. *)
Definition Eacute : string := String (ascii_of_nat 201) "".

(** A game with two options that differ by the case of an accented letter:
    U+00C9, x, y, U+00E9 in that order, U+00E9 being correct. *)
Definition accentGame : Store :=
  afterAll [start [provided "easy" eacute [Eacute; "x"; "y"]] "p1"].

(** Three players, two of them tied at 0 and registered before the leader. *)
Definition tiedPlayers : Store :=
  afterAll [start capitals "zoe"; start capitals "abe"; start capitals "kim";
            AnswerQuestion "kim" "D"].

(* ================================================================== *)
(** ** Facts about the primitives *)
(* ================================================================== *)

Section MapFacts.
Context {V : Type}.
Implicit Types (m : Map V) (k : string) (v : V).

Lemma Map_get_set_same m k v : Map_get (Map_set m k v) k = Some v.
Proof.
  induction m as [|[k' v'] tl IH]; simpl.
  - now rewrite String.eqb_refl.
  - destruct (String.eqb k' k) eqn:E; simpl; rewrite E; [reflexivity | exact IH].
Qed.

Lemma Map_get_set_other m k k' v :
  k' <> k -> Map_get (Map_set m k v) k' = Map_get m k'.
Proof.
  intros Hne. induction m as [|[k0 v0] tl IH]; simpl.
  - destruct (String.eqb_spec k k'); [congruence | reflexivity].
  - destruct (String.eqb_spec k0 k) as [->|Hk]; simpl.
    + destruct (String.eqb_spec k k'); [congruence | reflexivity].
    + now rewrite IH.
Qed.

Lemma Map_get_In m k v : Map_get m k = Some v -> In (k, v) m.
Proof.
  induction m as [|[k0 v0] tl IH]; simpl; [discriminate|].
  destruct (String.eqb_spec k0 k) as [->|Hk]; intros H.
  - left. congruence.
  - right. auto.
Qed.

Lemma Map_set_In m k v kv :
  In kv (Map_set m k v) -> kv = (k, v) \/ In kv m.
Proof.
  induction m as [|[k0 v0] tl IH]; simpl.
  - intros [H|[]]; auto.
  - destruct (String.eqb_spec k0 k) as [->|Hk]; simpl; intros [H|H]; auto.
    destruct (IH H); auto.
Qed.

Lemma Map_set_Forall (P : string * V -> Prop) m k v :
  Forall P m -> P (k, v) -> Forall P (Map_set m k v).
Proof.
  intros Hm Hv. apply Forall_forall. intros kv Hin.
  destruct (Map_set_In _ _ _ _ Hin) as [->|Hold]; [exact Hv|].
  rewrite Forall_forall in Hm. auto.
Qed.

Lemma Map_get_Forall (P : string * V -> Prop) m k v :
  Forall P m -> Map_get m k = Some v -> P (k, v).
Proof.
  intros Hm Hget. rewrite Forall_forall in Hm. apply Hm, Map_get_In, Hget.
Qed.

Lemma Map_set_keys m k v x :
  In x (List.map fst (Map_set m k v)) -> x = k \/ In x (List.map fst m).
Proof.
  induction m as [|[k0 v0] tl IH]; simpl.
  - intros [H|[]]; auto.
  - destruct (String.eqb_spec k0 k) as [->|Hk]; simpl; intros [H|H]; auto.
    destruct (IH H); auto.
Qed.

(** [set] never duplicates a key. *)
Lemma Map_set_NoDup m k v :
  NoDup (List.map fst m) -> NoDup (List.map fst (Map_set m k v)).
Proof.
  induction m as [|[k0 v0] tl IH]; simpl; intros Hnd.
  - constructor; [intros [] | constructor].
  - inversion Hnd as [|? ? Hnotin Htl]; subst.
    destruct (String.eqb_spec k0 k) as [->|Hk]; simpl.
    + now constructor.
    + constructor; [|now apply IH].
      intros Hin. destruct (Map_set_keys _ _ _ _ Hin); [congruence | contradiction].
Qed.

End MapFacts.

Section ArrayFacts.
Context {A : Type}.
Implicit Types (arr : list A) (i : Z) (n : nat) (x : A).

Lemma index_Some_range arr i x :
  index arr i = Some x -> 0 <= i < array_length arr.
Proof.
  unfold index, array_length. destruct (Z.ltb_spec i 0) as [Hneg|Hpos]; [discriminate|].
  intros H. assert (Hn : (Z.to_nat i < List.length arr)%nat).
  { apply nth_error_Some. congruence. }
  lia.
Qed.

Lemma index_in_range arr i :
  0 <= i < array_length arr -> exists x, index arr i = Some x.
Proof.
  unfold index, array_length. intros Hi.
  destruct (Z.ltb_spec i 0) as [Hneg|Hpos]; [lia|].
  destruct (nth_error arr (Z.to_nat i)) eqn:E; [eauto|].
  apply nth_error_None in E. lia.
Qed.

Lemma assign_length arr n x : List.length (assign arr n x) = List.length arr.
Proof.
  revert n; induction arr as [|y tl IH]; intros [|n]; simpl; auto.
Qed.

Lemma array_length_assign arr n x : array_length (assign arr n x) = array_length arr.
Proof. unfold array_length. now rewrite assign_length. Qed.

Lemma nth_error_assign_same arr n x :
  (n < List.length arr)%nat -> nth_error (assign arr n x) n = Some x.
Proof.
  revert n; induction arr as [|y tl IH]; intros [|n]; simpl; intros H;
    try lia; auto. apply IH. lia.
Qed.

Lemma nth_error_assign_other arr n n' x :
  n <> n' -> nth_error (assign arr n x) n' = nth_error arr n'.
Proof.
  revert n n'; induction arr as [|y tl IH]; intros [|n] [|n'] H; simpl;
    try reflexivity; try congruence. apply IH. congruence.
Qed.

End ArrayFacts.

Lemma assign_map {A B : Type} (f : A -> B) (arr : list A) (n : nat) (x : A) :
  List.map f (assign arr n x) = assign (List.map f arr) n (f x).
Proof.
  revert n; induction arr as [|y tl IH]; intros [|n]; simpl; auto.
  now rewrite IH.
Qed.

Lemma negative_max0 (x : number) : negative (Math_max (Num 0) x) = false.
Proof.
  destruct x as [z|]; simpl; [|reflexivity].
  unfold negative; simpl. apply Z.ltb_ge. lia.
Qed.

Lemma negative_false_iff (x : number) :
  negative x = false <-> (forall z, x = Num z -> 0 <= z).
Proof.
  destruct x as [z|]; unfold negative; simpl; split; intros H.
  - intros z' [= <-]. now apply Z.ltb_ge.
  - apply Z.ltb_ge. auto.
  - discriminate.
  - reflexivity.
Qed.

Lemma index_assign_other {A : Type} (arr : list A) (n : nat) (x : A) (j : Z) :
  j <> Z.of_nat n -> index (assign arr n x) j = index arr j.
Proof.
  intros Hne. unfold index. destruct (Z.ltb_spec j 0) as [Hneg|Hpos]; [reflexivity|].
  apply nth_error_assign_other. lia.
Qed.

Lemma index_assign_same {A : Type} (arr : list A) (i : Z) (x y : A) :
  index arr i = Some y -> index (assign arr (Z.to_nat i) x) i = Some x.
Proof.
  intros H. pose proof (index_Some_range _ _ _ H) as Hr.
  unfold index, array_length in *. destruct (Z.ltb_spec i 0) as [Hneg|Hpos]; [lia|].
  apply nth_error_assign_same. lia.
Qed.

(* ================================================================== *)
(** ** What each tool does to a session *)
(* ================================================================== *)

Section ToolFacts.
Variables (gameStates : Store) (playerId : string).

Lemma answer_no_session answer :
  Map_get gameStates playerId = None ->
  answerQuestionTool playerId answer gameStates = (Throw noActiveGameStart, gameStates).
Proof. intros H. unfold answerQuestionTool. now rewrite H. Qed.

Lemma answer_no_question answer gameState :
  Map_get gameStates playerId = Some gameState ->
  index (GameState.questions gameState) (GameState.currentQuestionIndex gameState) = None ->
  answerQuestionTool playerId answer gameStates = (Throw noCurrentQuestion, gameStates).
Proof. intros H1 H2. unfold answerQuestionTool. now rewrite H1, H2. Qed.

(** On a session that awaits an answer the tool returns, and commits
    [answer_state]. *)
Lemma answer_awaiting answer gameState currentQuestion :
  awaiting gameStates playerId gameState currentQuestion ->
  exists out,
    answerQuestionTool playerId answer gameStates
      = (Return out, Map_set gameStates playerId (answer_state gameState currentQuestion answer))
    /\ AnswerOutput.correct out = isCorrect currentQuestion answer
    /\ AnswerOutput.score out
       = GameState.score (answer_state gameState currentQuestion answer)
    /\ AnswerOutput.streak out
       = GameState.streak (answer_state gameState currentQuestion answer)
    /\ AnswerOutput.correctAnswer out = Question.correct currentQuestion
    /\ AnswerOutput.gameCompleted out
       = completed (answer_state gameState currentQuestion answer).
Proof.
  intros [Hget Hidx]. pose proof (index_Some_range _ _ _ Hidx) as Hr.
  unfold answerQuestionTool, answer_state. rewrite Hget, Hidx. cbv zeta.
  destruct (isCorrect currentQuestion answer) eqn:Hv;
    (match goal with |- context [completed ?g] => destruct (completed g) eqn:Hc end;
     [ eexists; split; [reflexivity|]; simpl; auto
     | unfold completed in Hc; simpl in Hc; rewrite array_length_assign in Hc;
       apply Z.leb_gt in Hc;
       match goal with |- context [index ?qs ?j] =>
         destruct (index_in_range qs j) as [nextQ Hn];
         [ rewrite array_length_assign; lia | rewrite Hn ]
       end;
       eexists; split; [reflexivity|]; simpl; auto ]).
Qed.

Lemma hint_no_session pick draw :
  Map_get gameStates playerId = None ->
  getHintTool pick draw playerId gameStates = (Throw noActiveGame, gameStates).
Proof. intros H. unfold getHintTool. now rewrite H. Qed.

Lemma hint_no_question pick draw gameState :
  Map_get gameStates playerId = Some gameState ->
  index (GameState.questions gameState) (GameState.currentQuestionIndex gameState) = None ->
  getHintTool pick draw playerId gameStates = (Throw noCurrentQuestion, gameStates).
Proof. intros H1 H2. unfold getHintTool. now rewrite H1, H2. Qed.

Lemma hint_exhausted pick draw gameState currentQuestion :
  awaiting gameStates playerId gameState currentQuestion ->
  3 <= GameState.hintsUsed gameState ->
  getHintTool pick draw playerId gameStates
  = (Return (HintOutput.mk false HintsExhausted (Question.options currentQuestion)
               (GameState.hintsUsed gameState) 0),
     gameStates).
Proof.
  intros [Hget Hidx] Hh. unfold getHintTool. rewrite Hget, Hidx.
  destruct (Z.leb_spec 3 (GameState.hintsUsed gameState)); [reflexivity | lia].
Qed.

Lemma hint_granted pick draw gameState currentQuestion :
  awaiting gameStates playerId gameState currentQuestion ->
  GameState.hintsUsed gameState < 3 ->
  exists out,
    getHintTool pick draw playerId gameStates
      = (Return out, Map_set gameStates playerId (hint_state gameState))
    /\ HintOutput.success out = true
    /\ HintOutput.hintsUsed out = GameState.hintsUsed gameState + 1
    /\ HintOutput.scorePenalty out = hintPenalty.
Proof.
  intros [Hget Hidx] Hh. unfold getHintTool. rewrite Hget, Hidx.
  destruct (Z.leb_spec 3 (GameState.hintsUsed gameState)); [lia|].
  cbv zeta. fold (hint_state gameState). eexists. split; [reflexivity|].
  simpl. auto.
Qed.

Lemma skip_no_session :
  Map_get gameStates playerId = None ->
  skipQuestionTool playerId gameStates = (Throw noActiveGame, gameStates).
Proof. intros H. unfold skipQuestionTool. now rewrite H. Qed.

Lemma skip_exhausted gameState :
  Map_get gameStates playerId = Some gameState ->
  2 <= GameState.skipsUsed gameState ->
  skipQuestionTool playerId gameStates
  = (Return (SkipOutput.mk false SkipsExhausted None (GameState.skipsUsed gameState) 0),
     gameStates).
Proof.
  intros Hget Hs. unfold skipQuestionTool. rewrite Hget.
  destruct (Z.leb_spec 2 (GameState.skipsUsed gameState)); [reflexivity | lia].
Qed.

(** Whatever it returns, a skip that passes the two guards commits
    [skip_state]. *)
Lemma skip_commits gameState :
  Map_get gameStates playerId = Some gameState ->
  GameState.skipsUsed gameState < 2 ->
  snd (skipQuestionTool playerId gameStates)
  = Map_set gameStates playerId (skip_state gameState).
Proof.
  intros Hget Hs. unfold skipQuestionTool. rewrite Hget.
  destruct (Z.leb_spec 2 (GameState.skipsUsed gameState)); [lia|].
  cbv zeta. fold (skip_state gameState).
  destruct (completed (skip_state gameState)); [reflexivity|].
  destruct (index _ _); reflexivity.
Qed.

Lemma skip_granted gameState :
  Map_get gameStates playerId = Some gameState ->
  GameState.skipsUsed gameState < 2 ->
  0 <= GameState.currentQuestionIndex gameState ->
  exists out,
    skipQuestionTool playerId gameStates
      = (Return out, Map_set gameStates playerId (skip_state gameState))
    /\ SkipOutput.success out = true
    /\ SkipOutput.skipsUsed out = GameState.skipsUsed gameState + 1
    /\ SkipOutput.scorePenalty out = skipPenalty.
Proof.
  intros Hget Hs Hi. unfold skipQuestionTool. rewrite Hget.
  destruct (Z.leb_spec 2 (GameState.skipsUsed gameState)); [lia|].
  cbv zeta. fold (skip_state gameState).
  destruct (completed (skip_state gameState)) eqn:Hc.
  - eexists. split; [reflexivity|]. simpl. auto.
  - unfold completed in Hc. simpl in Hc. apply Z.leb_gt in Hc.
    destruct (index_in_range (GameState.questions gameState)
                (GameState.currentQuestionIndex gameState + 1)) as [nextQ Hn];
      [lia|].
    simpl. rewrite Hn. eexists. split; [reflexivity|]. simpl. auto.
Qed.

End ToolFacts.

(* ================================================================== *)
(** ** Scoring *)
(* ================================================================== *)

Lemma streakBonus_nonneg (streak : Z) : 0 <= streakBonus streak.
Proof.
  unfold streakBonus, Math_floor_div.
  destruct (Z.leb_spec 3 streak); [|lia].
  assert (0 <= streak / 3) by (apply Z.div_pos; lia). lia.
Qed.

(** The three own multipliers and the default give 10, 15 or 20 points. *)
Lemma difficultyPoints_cases (difficulty : string) :
  difficultyPoints difficulty = Num 10 \/ difficultyPoints difficulty = Num 15 \/
  difficultyPoints difficulty = Num 20 \/ difficultyPoints difficulty = NaN.
Proof.
  unfold difficultyPoints, difficultyMultiplier, multiplierTable.
  destruct (String.eqb difficulty "easy"); [left; reflexivity|].
  destruct (String.eqb difficulty "medium"); [right; left; reflexivity|].
  destruct (String.eqb difficulty "hard"); [right; right; left; reflexivity|].
  destruct (existsb _ _); [right; right; right; reflexivity | left; reflexivity].
Qed.

Lemma scoreGained_not_negative (difficulty : string) (streak : Z) :
  negative (scoreGained difficulty streak) = false.
Proof.
  unfold scoreGained. pose proof (streakBonus_nonneg streak).
  destruct (difficultyPoints_cases difficulty) as [E|[E|[E|E]]]; rewrite E;
    unfold negative; cbn [number_add number_ltb]; try reflexivity;
    apply Z.ltb_ge; lia.
Qed.

Lemma number_add_not_negative (a b : number) :
  negative a = false -> negative b = false -> negative (number_add a b) = false.
Proof.
  destruct a, b; unfold negative; simpl; try reflexivity.
  rewrite !Z.ltb_ge. lia.
Qed.

(** Off the inherited property names the code computes the documented
    formula. *)
Lemma scoreGained_formula (difficulty : string) (streak : Z) :
  List.existsb (String.eqb difficulty) objectPrototypeKeys = false ->
  scoreGained difficulty streak = Num (spec_pointsForCorrectAnswer difficulty streak).
Proof.
  intros Hkey.
  unfold scoreGained, spec_pointsForCorrectAnswer, spec_multiplier, difficultyPoints,
    difficultyMultiplier, multiplierTable, streakBonus, Math_floor_div.
  rewrite Hkey.
  destruct (String.eqb difficulty "easy"); [reflexivity|].
  destruct (String.eqb difficulty "medium"); [reflexivity|].
  destruct (String.eqb difficulty "hard"); reflexivity.
Qed.

(* ================================================================== *)
(** ** Invariants of the stored sessions *)
(* ================================================================== *)

Lemma answer_state_ok gameState currentQuestion answer :
  session_ok gameState -> session_ok (answer_state gameState currentQuestion answer).
Proof.
  intros [Hs Hi Hk Hh Hsk]. unfold answer_state.
  constructor; simpl; try assumption; try lia.
  - destruct (isCorrect currentQuestion answer); [|assumption].
    apply number_add_not_negative; [assumption | apply scoreGained_not_negative].
  - destruct (isCorrect currentQuestion answer); lia.
Qed.

Lemma store_ok_set gameStates playerId gameState :
  store_ok gameStates -> session_ok gameState ->
  store_ok (Map_set gameStates playerId gameState).
Proof. intros H1 H2. apply Map_set_Forall; assumption. Qed.

Lemma store_ok_get gameStates playerId gameState :
  store_ok gameStates -> Map_get gameStates playerId = Some gameState ->
  session_ok gameState.
Proof.
  intros H1 H2.
  exact (Map_get_Forall (fun kv => session_ok (snd kv)) _ _ _ H1 H2).
Qed.

Lemma start_ok draw today response playerId questionsCount gameStates :
  store_ok gameStates ->
  store_ok (snd (startGameTool draw today response playerId questionsCount gameStates)).
Proof.
  intros Hok. unfold startGameTool.
  destruct response as [results|]; [|exact Hok].
  destruct (buildQuestions draw results) as [|q qs]; [exact Hok|].
  simpl. apply store_ok_set; [exact Hok|].
  constructor; simpl; try reflexivity; lia.
Qed.

Lemma answer_ok playerId answer gameStates :
  store_ok gameStates -> store_ok (snd (answerQuestionTool playerId answer gameStates)).
Proof.
  intros Hok.
  destruct (Map_get gameStates playerId) as [gameState|] eqn:Hget.
  2:{ now rewrite answer_no_session. }
  destruct (index (GameState.questions gameState)
              (GameState.currentQuestionIndex gameState)) as [q|] eqn:Hidx.
  2:{ now rewrite (answer_no_question _ _ _ _ Hget Hidx). }
  destruct (answer_awaiting _ _ answer _ _ (conj Hget Hidx)) as [out [E _]].
  rewrite E. simpl. apply store_ok_set; [exact Hok|].
  apply answer_state_ok. eapply store_ok_get; eassumption.
Qed.

Lemma hint_ok pick draw playerId gameStates :
  store_ok gameStates -> store_ok (snd (getHintTool pick draw playerId gameStates)).
Proof.
  intros Hok.
  destruct (Map_get gameStates playerId) as [gameState|] eqn:Hget.
  2:{ now rewrite hint_no_session. }
  destruct (index (GameState.questions gameState)
              (GameState.currentQuestionIndex gameState)) as [q|] eqn:Hidx.
  2:{ now rewrite (hint_no_question _ _ _ _ _ Hget Hidx). }
  destruct (Z.le_gt_cases 3 (GameState.hintsUsed gameState)) as [Hh|Hh].
  - now rewrite (hint_exhausted _ _ _ _ _ _ (conj Hget Hidx) Hh).
  - destruct (hint_granted _ _ pick draw _ _ (conj Hget Hidx)) as [out [E _]]; [lia|].
    rewrite E. simpl. apply store_ok_set; [exact Hok|].
    destruct (store_ok_get _ _ _ Hok Hget) as [Hs Hi Hk Hhi Hsk].
    constructor; simpl; try assumption; try lia. apply negative_max0.
Qed.

Lemma skip_ok playerId gameStates :
  store_ok gameStates -> store_ok (snd (skipQuestionTool playerId gameStates)).
Proof.
  intros Hok.
  destruct (Map_get gameStates playerId) as [gameState|] eqn:Hget.
  2:{ now rewrite skip_no_session. }
  destruct (Z.le_gt_cases 2 (GameState.skipsUsed gameState)) as [Hs|Hs].
  - now rewrite (skip_exhausted _ _ _ Hget Hs).
  - rewrite (skip_commits _ _ _ Hget) by lia.
    apply store_ok_set; [exact Hok|].
    destruct (store_ok_get _ _ _ Hok Hget) as [Hsc Hi Hk Hhi Hsk].
    constructor; simpl; try assumption; try lia. apply negative_max0.
Qed.

Lemma after_ok gameStates call :
  store_ok gameStates -> store_ok (after gameStates call).
Proof.
  intros Hok. destruct call; simpl.
  - now apply start_ok.
  - now apply answer_ok.
  - now apply hint_ok.
  - now apply skip_ok.
  - exact Hok.
  - unfold getGameStatsTool. destruct (Map_get gameStates playerId); exact Hok.
Qed.

Lemma fold_after_ok calls gameStates :
  store_ok gameStates -> store_ok (List.fold_left after calls gameStates).
Proof.
  revert gameStates. induction calls as [|c calls IH]; intros st Hok; simpl.
  - exact Hok.
  - apply IH, after_ok, Hok.
Qed.

Lemma reachable_ok gameStates : reachable gameStates -> store_ok gameStates.
Proof.
  intros [calls ->]. unfold afterAll. apply fold_after_ok. constructor.
Qed.

(** A call either leaves the registry alone or sets one key. *)
Lemma after_shape gameStates call :
  after gameStates call = gameStates
  \/ exists playerId gameState, after gameStates call = Map_set gameStates playerId gameState.
Proof.
  destruct call as [draw today response playerId count | playerId answer
                   | pick draw playerId | playerId | | playerId]; simpl.
  - unfold startGameTool. destruct response as [results|]; [|now left].
    destruct (buildQuestions draw results); [now left|]. right. simpl. eauto.
  - destruct (Map_get gameStates playerId) as [gameState|] eqn:Hget.
    2:{ left. now rewrite answer_no_session. }
    destruct (index (GameState.questions gameState)
                (GameState.currentQuestionIndex gameState)) as [q|] eqn:Hidx.
    2:{ left. now rewrite (answer_no_question _ _ _ _ Hget Hidx). }
    destruct (answer_awaiting _ _ answer _ _ (conj Hget Hidx)) as [out [E _]].
    right. rewrite E. simpl. eauto.
  - unfold getHintTool. destruct (Map_get gameStates playerId); [|now left].
    destruct (index _ _); [|now left].
    destruct (3 <=? _); [now left|]. right. simpl. eauto.
  - unfold skipQuestionTool. destruct (Map_get gameStates playerId); [|now left].
    destruct (2 <=? _); [now left|]. right. cbv zeta.
    destruct (completed _); [simpl; eauto|]. destruct (index _ _); simpl; eauto.
  - now left.
  - left. unfold getGameStatsTool. destruct (Map_get gameStates playerId); reflexivity.
Qed.

(** A reachable registry holds each player once: its length is its size. *)
Lemma reachable_keys_unique gameStates :
  reachable gameStates -> NoDup (List.map fst gameStates).
Proof.
  intros [calls ->]. unfold afterAll.
  assert (Hempty : NoDup (List.map fst emptyStore)) by constructor.
  revert Hempty. generalize emptyStore.
  induction calls as [|c calls IH]; intros st Hst; simpl; [exact Hst|].
  apply IH. destruct (after_shape st c) as [->|[k [v ->]]]; [exact Hst|].
  now apply Map_set_NoDup.
Qed.

Lemma reachable_after gameStates call :
  reachable gameStates -> reachable (after gameStates call).
Proof.
  intros [calls ->]. exists (calls ++ [call]).
  unfold afterAll. now rewrite List.fold_left_app.
Qed.

(* ================================================================== *)
(** ** Answer normalization *)
(* ================================================================== *)

Lemma isWhiteSpace_upperChar (c : ascii) : isWhiteSpace (upperChar c) = isWhiteSpace c.
Proof. each_code_unit c. Qed.

Lemma upperChar_idempotent (c : ascii) : upperChar (upperChar c) = upperChar c.
Proof. each_code_unit c. Qed.

Lemma sharp_s_upperChar (c : ascii) : (code (upperChar c) =? 223) = (code c =? 223).
Proof. each_code_unit c. Qed.

Lemma sharp_s_not_white (c : ascii) : (code c =? 223) = true -> isWhiteSpace c = false.
Proof. destruct c as [[] [] [] [] [] [] [] []]; intros H; try reflexivity; discriminate. Qed.

Lemma toUpperCase_idempotent (s : string) : toUpperCase (toUpperCase s) = toUpperCase s.
Proof.
  induction s as [|c s IH]; simpl; [reflexivity|].
  destruct (code c =? 223) eqn:E; simpl.
  - now rewrite IH.
  - now rewrite sharp_s_upperChar, E, upperChar_idempotent, IH.
Qed.

Lemma trimStart_toUpperCase (s : string) :
  trimStart (toUpperCase s) = toUpperCase (trimStart s).
Proof.
  induction s as [|c s IH]; simpl; [reflexivity|].
  destruct (code c =? 223) eqn:E.
  - rewrite (sharp_s_not_white c E). simpl. now rewrite E.
  - simpl. rewrite isWhiteSpace_upperChar.
    destruct (isWhiteSpace c); [exact IH|]. simpl. now rewrite E.
Qed.

(** A code unit that is no white space survives [trimEnd] at the front. *)
Lemma trimEnd_keeps (c : ascii) (s : string) :
  isWhiteSpace c = false -> trimEnd (String c s) = String c (trimEnd s).
Proof. intros W. simpl. rewrite W. destruct (trimEnd s); reflexivity. Qed.

Lemma trimEnd_toUpperCase (s : string) :
  trimEnd (toUpperCase s) = toUpperCase (trimEnd s).
Proof.
  induction s as [|c s IH]; [reflexivity|].
  cbn [toUpperCase]. destruct (code c =? 223) eqn:E.
  - pose proof (sharp_s_not_white c E) as W.
    rewrite !trimEnd_keeps by reflexivity. rewrite IH.
    rewrite (trimEnd_keeps c s W). cbn [toUpperCase]. now rewrite E.
  - cbn [trimEnd]. rewrite IH, isWhiteSpace_upperChar.
    destruct (trimEnd s) as [|c' t] eqn:Et.
    + cbn [toUpperCase]. destruct (isWhiteSpace c); [reflexivity|].
      cbn [toUpperCase]. now rewrite E.
    + assert (Hne : toUpperCase (String c' t) <> EmptyString).
      { cbn [toUpperCase]. destruct (code c' =? 223); discriminate. }
      destruct (toUpperCase (String c' t)) as [|u us] eqn:Eu; [contradiction|].
      cbn [toUpperCase]. rewrite E. change (toUpperCase (String c' t))
        with (if code c' =? 223
              then String "S" (String "S" (toUpperCase t))
              else String (upperChar c') (toUpperCase t)) in Eu.
      cbn [toUpperCase]. now rewrite Eu.
Qed.

Lemma trim_toUpperCase (s : string) : trim (toUpperCase s) = toUpperCase (trim s).
Proof. unfold trim. now rewrite trimStart_toUpperCase, trimEnd_toUpperCase. Qed.

Lemma trimEnd_idempotent (s : string) : trimEnd (trimEnd s) = trimEnd s.
Proof.
  induction s as [|c s IH]; simpl; [reflexivity|].
  destruct (trimEnd s) as [|c' t] eqn:E.
  - destruct (isWhiteSpace c) eqn:W; simpl; [reflexivity | now rewrite W].
  - change (trimEnd (String c (String c' t))) with
      (match trimEnd (String c' t) with
       | EmptyString => if isWhiteSpace c then EmptyString else String c EmptyString
       | u => String c u
       end).
    now rewrite IH.
Qed.

(** A string without leading white space keeps its first code unit. *)
Lemma trimStart_head (s : string) :
  match trimStart s with
  | EmptyString => True
  | String c _ => isWhiteSpace c = false
  end.
Proof.
  induction s as [|c s IH]; simpl; [exact I|].
  destruct (isWhiteSpace c) eqn:W; [exact IH | exact W].
Qed.

Lemma trimStart_trimEnd (s : string) :
  match s with
  | EmptyString => True
  | String c _ => isWhiteSpace c = false
  end ->
  trimStart (trimEnd s) = trimEnd s.
Proof.
  destruct s as [|c s]; [reflexivity|]. intros W. simpl.
  destruct (trimEnd s); rewrite ?W; simpl; now rewrite W.
Qed.

Lemma trim_idempotent (s : string) : trim (trim s) = trim s.
Proof.
  unfold trim. rewrite trimStart_trimEnd by apply trimStart_head.
  apply trimEnd_idempotent.
Qed.

(** Normalizing twice is normalizing once. *)
Lemma normalize_idempotent (s : string) :
  toUpperCase (trim (toUpperCase (trim s))) = toUpperCase (trim s).
Proof. now rewrite trim_toUpperCase, trim_idempotent, toUpperCase_idempotent. Qed.

(** The verdict only reads the normalized answer. *)
Lemma isCorrect_normalized (q : Question.t) (answer : string) :
  isCorrect q (toUpperCase (trim answer)) = isCorrect q answer.
Proof. unfold isCorrect. now rewrite normalize_idempotent. Qed.

Lemma isCorrect_letter (q : Question.t) (i : Z) (text : string) :
  0 <= i <= 3 ->
  index (Question.options q) i = Some text ->
  isCorrect q (letterOf i) = String.eqb text (Question.correct q).
Proof.
  intros Hi Hopt. unfold isCorrect.
  assert (E : toUpperCase (trim (letterOf i)) = letterOf i
              /\ test_A_D (letterOf i) = true
              /\ charCodeAt0 (letterOf i) - 65 = i).
  { assert (C : i = 0 \/ i = 1 \/ i = 2 \/ i = 3) by lia.
    destruct C as [->|[->|[->| ->]]]; repeat split; reflexivity. }
  destruct E as [-> [-> ->]]. now rewrite Hopt.
Qed.

Lemma isCorrect_text (q : Question.t) (text : string) :
  test_A_D (toUpperCase (trim text)) = false ->
  isCorrect q text
  = String.eqb (toUpperCase (trim text)) (toUpperCase (Question.correct q)).
Proof. intros H. unfold isCorrect. now rewrite H. Qed.

Lemma forgetAnswers_set gameStates playerId gameState :
  forgetAnswers (Map_set gameStates playerId gameState)
  = Map_set (forgetAnswers gameStates) playerId (forgetState gameState).
Proof.
  induction gameStates as [|[k v] tl IH]; simpl; [reflexivity|].
  destruct (String.eqb k playerId); simpl; [reflexivity | now rewrite IH].
Qed.

(** Two raw answers with the same verdict give the same output and the same
    registry, up to the raw answer recorded. *)
Lemma answer_congruence gameStates playerId gameState currentQuestion a1 a2 :
  awaiting gameStates playerId gameState currentQuestion ->
  isCorrect currentQuestion a1 = isCorrect currentQuestion a2 ->
  fst (answerQuestionTool playerId a1 gameStates)
  = fst (answerQuestionTool playerId a2 gameStates)
  /\ forgetAnswers (snd (answerQuestionTool playerId a1 gameStates))
     = forgetAnswers (snd (answerQuestionTool playerId a2 gameStates)).
Proof.
  intros [Hget Hidx] Hv. pose proof (index_Some_range _ _ _ Hidx) as Hr.
  unfold answerQuestionTool. rewrite Hget, Hidx. cbv zeta. rewrite Hv.
  unfold completed. cbn [GameState.questions GameState.currentQuestionIndex].
  rewrite !array_length_assign, !index_assign_other by lia.
  destruct (_ <=? _);
    [|destruct (index (GameState.questions gameState)
                  (GameState.currentQuestionIndex gameState + 1))];
    cbn [fst snd]; (split; [reflexivity|]);
    rewrite !forgetAnswers_set; f_equal; unfold forgetState; simpl;
    now rewrite !assign_map.
Qed.

(* ================================================================== *)
(** ** The leaderboard sort *)
(* ================================================================== *)

Lemma insert_perm (x : Entry.t) (l : list Entry.t) : Permutation (insert x l) (x :: l).
Proof.
  induction l as [|y tl IH]; simpl; [reflexivity|].
  destruct (sortCompare x y <=? 0); [reflexivity|].
  rewrite IH. apply perm_swap.
Qed.

Lemma sort_perm (l : list Entry.t) : Permutation (sort l) l.
Proof.
  induction l as [|x tl IH]; simpl; [reflexivity|].
  rewrite insert_perm. now constructor.
Qed.

Lemma sort_length (l : list Entry.t) : List.length (sort l) = List.length l.
Proof. apply Permutation_length, sort_perm. Qed.

Lemma sortCompare_le (x y : Entry.t) :
  numericEntry x -> numericEntry y ->
  if sortCompare x y <=? 0 then score_ge x y else score_ge y x.
Proof.
  unfold numericEntry, numeric, sortCompare, compareFn, score_ge.
  destruct (Entry.score x) as [a|], (Entry.score y) as [b|]; try congruence.
  intros _ _. simpl. destruct (Z.leb_spec (b - a) 0); lia.
Qed.

Lemma score_ge_trans (x y z : Entry.t) : score_ge x y -> score_ge y z -> score_ge x z.
Proof.
  unfold score_ge.
  destruct (Entry.score x), (Entry.score y), (Entry.score z); try tauto. lia.
Qed.

Lemma insert_sorted (x : Entry.t) (l : list Entry.t) :
  numericEntry x -> Forall numericEntry l ->
  StronglySorted score_ge l -> StronglySorted score_ge (insert x l).
Proof.
  intros Hx Hl Hs. induction Hs as [|y tl Hs IH Hy]; simpl.
  - repeat constructor.
  - inversion Hl as [|? ? Hny Hntl]; subst.
    pose proof (sortCompare_le x y Hx Hny) as Hc.
    destruct (sortCompare x y <=? 0).
    + constructor; [now constructor|].
      constructor; [exact Hc|].
      eapply Forall_impl; [|exact Hy]. intros z Hz. eapply score_ge_trans; eassumption.
    + constructor; [now apply IH|].
      eapply Permutation_Forall; [symmetry; apply insert_perm|].
      now constructor.
Qed.

Lemma sort_sorted (l : list Entry.t) :
  Forall numericEntry l -> StronglySorted score_ge (sort l).
Proof.
  induction l as [|x tl IH]; simpl; intros Hl; [constructor|].
  inversion Hl; subst. apply insert_sorted; auto.
  eapply Permutation_Forall; [symmetry; apply sort_perm | assumption].
Qed.

Lemma StronglySorted_firstn {A : Type} (R : A -> A -> Prop) (n : nat) (l : list A) :
  StronglySorted R l -> StronglySorted R (List.firstn n l).
Proof.
  intros Hs. revert n. induction Hs as [|x tl Hs IH Hx]; intros [|n]; simpl;
    try constructor; auto.
  rewrite Forall_forall in *. intros y Hy. apply Hx.
  eapply (In_nth_error) in Hy. destruct Hy as [k Hk].
  apply nth_error_In with (n := k).
  rewrite nth_error_firstn in Hk. destruct (k <? n)%nat; [exact Hk | discriminate].
Qed.

Lemma toEntry_numeric (gameStates : Store) :
  Forall (fun kv => numeric (GameState.score (snd kv))) gameStates ->
  Forall numericEntry (List.map toEntry gameStates).
Proof.
  intros H. apply Forall_map. eapply Forall_impl; [|exact H].
  intros [k gs]; simpl. auto.
Qed.

(* ================================================================== *)
(** ** How a call on a stored session can end *)
(* ================================================================== *)

Section Outcomes.
Variables (gameStates : Store) (playerId : string) (gameState : GameState.t).
Hypothesis Hget : Map_get gameStates playerId = Some gameState.

Lemma hint_outcomes pick draw :
  (index (GameState.questions gameState) (GameState.currentQuestionIndex gameState) = None
   /\ getHintTool pick draw playerId gameStates = (Throw noCurrentQuestion, gameStates))
  \/ (3 <= GameState.hintsUsed gameState
      /\ exists out, getHintTool pick draw playerId gameStates = (Return out, gameStates)
                     /\ HintOutput.success out = false)
  \/ (GameState.hintsUsed gameState < 3
      /\ exists out, getHintTool pick draw playerId gameStates
                     = (Return out, Map_set gameStates playerId (hint_state gameState))
                     /\ HintOutput.success out = true).
Proof.
  destruct (index (GameState.questions gameState)
              (GameState.currentQuestionIndex gameState)) as [q|] eqn:Hidx.
  2:{ left. split; [reflexivity|]. now apply hint_no_question with gameState. }
  right. destruct (Z.le_gt_cases 3 (GameState.hintsUsed gameState)) as [Hh|Hh].
  - left. split; [exact Hh|]. eexists. split.
    + apply hint_exhausted with (currentQuestion := q); [split; eassumption | exact Hh].
    + reflexivity.
  - right. split; [lia|].
    destruct (hint_granted gameStates playerId pick draw gameState q)
      as [out [E [Hs _]]]; [split; assumption | lia |].
    exists out. auto.
Qed.

Lemma skip_outcomes :
  0 <= GameState.currentQuestionIndex gameState ->
  (2 <= GameState.skipsUsed gameState
   /\ exists out, skipQuestionTool playerId gameStates = (Return out, gameStates)
                  /\ SkipOutput.success out = false)
  \/ (GameState.skipsUsed gameState < 2
      /\ exists out, skipQuestionTool playerId gameStates
                     = (Return out, Map_set gameStates playerId (skip_state gameState))
                     /\ SkipOutput.success out = true).
Proof.
  intros Hi. destruct (Z.le_gt_cases 2 (GameState.skipsUsed gameState)) as [Hs|Hs].
  - left. split; [exact Hs|]. eexists. split.
    + apply skip_exhausted; [exact Hget | exact Hs].
    + reflexivity.
  - right. split; [lia|].
    destruct (skip_granted gameStates playerId gameState Hget) as [out [E [Hsu _]]];
      [lia | exact Hi |].
    exists out. auto.
Qed.

End Outcomes.

(* ================================================================== *)
(** ** Scores stay numbers when no difficulty names an inherited property *)
(* ================================================================== *)

Lemma assign_Forall {A : Type} (P : A -> Prop) (arr : list A) (n : nat) (x : A) :
  Forall P arr -> P x -> Forall P (assign arr n x).
Proof.
  intros Harr Hx. revert n.
  induction Harr as [|y tl Hy Htl IH]; intros [|n]; simpl; constructor; auto.
Qed.

Lemma index_Forall {A : Type} (P : A -> Prop) (arr : list A) (i : Z) (x : A) :
  Forall P arr -> index arr i = Some x -> P x.
Proof.
  intros Harr Hidx. unfold index in Hidx.
  destruct (i <? 0); [discriminate|].
  rewrite Forall_forall in Harr. eapply Harr, nth_error_In, Hidx.
Qed.

Lemma mapi_from_Forall {A B : Type} (P : A -> Prop) (Q : B -> Prop)
    (f : A -> nat -> B) (n : nat) (l : list A) :
  (forall x i, P x -> Q (f x i)) -> Forall P l -> Forall Q (mapi_from f n l).
Proof.
  intros Hf Hl. revert n.
  induction Hl as [|x tl Hx Htl IH]; intros n; simpl; constructor; auto.
Qed.

Lemma buildQuestions_plain draw results :
  Forall (fun q => plainDifficulty (FetchQuestion.difficulty q)) results ->
  Forall (fun q => plainDifficulty (Question.difficulty q)) (buildQuestions draw results).
Proof.
  intros H. unfold buildQuestions.
  eapply mapi_from_Forall; [|exact H]. intros q i Hq. exact Hq.
Qed.

Lemma plain_after gameStates call :
  plainCall call ->
  Forall (fun kv => plainSession (snd kv)) gameStates ->
  Forall (fun kv => plainSession (snd kv)) (after gameStates call).
Proof.
  intros Hcall Hst.
  assert (Hsession : forall playerId gameState,
             Map_get gameStates playerId = Some gameState -> plainSession gameState).
  { intros k gs Hget.
    exact (Map_get_Forall (fun kv => plainSession (snd kv)) _ _ _ Hst Hget). }
  destruct call as [draw today response playerId count | playerId answer
                   | pick draw playerId | playerId | | playerId]; simpl.
  - unfold startGameTool. destruct response as [results|]; [|exact Hst].
    pose proof (buildQuestions_plain draw results Hcall) as Hq.
    destruct (buildQuestions draw results) as [|q qs]; [exact Hst|]. simpl.
    apply Map_set_Forall; [exact Hst|]. split; [discriminate | exact Hq].
  - destruct (Map_get gameStates playerId) as [gameState|] eqn:Hget.
    2:{ now rewrite answer_no_session. }
    destruct (index (GameState.questions gameState)
                (GameState.currentQuestionIndex gameState)) as [q|] eqn:Hidx.
    2:{ now rewrite (answer_no_question _ _ _ _ Hget Hidx). }
    destruct (answer_awaiting _ _ answer _ _ (conj Hget Hidx)) as [out [E _]].
    rewrite E. simpl. apply Map_set_Forall; [exact Hst|].
    destruct (Hsession _ _ Hget) as [Hnum Hplain].
    pose proof (index_Forall _ _ _ _ Hplain Hidx) as Hq.
    split; simpl.
    + destruct (isCorrect q answer); [|exact Hnum].
      rewrite (scoreGained_formula _ _ Hq).
      unfold numeric in *. destruct (GameState.score gameState); [discriminate|congruence].
    + apply assign_Forall; [exact Hplain | exact Hq].
  - destruct (Map_get gameStates playerId) as [gameState|] eqn:Hget.
    2:{ now rewrite hint_no_session. }
    destruct (hint_outcomes _ _ _ Hget pick draw)
      as [[_ E]|[[_ [out [E _]]]|[_ [out [E _]]]]]; rewrite E; simpl; try exact Hst.
    apply Map_set_Forall; [exact Hst|].
    destruct (Hsession _ _ Hget) as [Hnum Hplain]. split; simpl; [|exact Hplain].
    unfold numeric in *. destruct (GameState.score gameState); [discriminate|congruence].
  - destruct (Map_get gameStates playerId) as [gameState|] eqn:Hget.
    2:{ now rewrite skip_no_session. }
    destruct (Z.le_gt_cases 2 (GameState.skipsUsed gameState)) as [Hs|Hs].
    { now rewrite (skip_exhausted _ _ _ Hget Hs). }
    rewrite (skip_commits _ _ _ Hget) by lia.
    apply Map_set_Forall; [exact Hst|].
    destruct (Hsession _ _ Hget) as [Hnum Hplain]. split; simpl; [|exact Hplain].
    unfold numeric in *. destruct (GameState.score gameState); [discriminate|congruence].
  - exact Hst.
  - unfold getGameStatsTool. destruct (Map_get gameStates playerId); exact Hst.
Qed.

(** Every score is a number in the registries reached by calls whose
    questions carry no inherited property name as difficulty. *)
Lemma plain_scores_numeric calls :
  Forall plainCall calls ->
  Forall (fun kv => numeric (GameState.score (snd kv))) (afterAll calls).
Proof.
  intros Hcalls.
  cut (Forall (fun kv => plainSession (snd kv)) (afterAll calls)).
  { apply Forall_impl. intros kv [H _]. exact H. }
  unfold afterAll.
  assert (Hempty : Forall (fun kv => plainSession (snd kv)) emptyStore) by constructor.
  revert Hempty. generalize emptyStore.
  induction Hcalls as [|c calls Hc Hcalls IH]; intros st Hst; simpl; [exact Hst|].
  apply IH, plain_after; assumption.
Qed.

(* ================================================================== *)
(** ** Properties of the session state machine *)
(* ================================================================== *)

(** *** Points for a correct answer *)

(** C1.  The points of a correct answer are meant to be
    [round(10 * multiplier) + streakBonus] with multiplier 1 for every
    difficulty other than easy, medium and hard.  The table lookup
    [{...}[difficulty] || 1] also finds the properties every object inherits:
    for the difficulty "constructor" the multiplier is a function, the points
    are [NaN] where the formula gives 10, and a correct answer turns the
    session score into [NaN]. *)
Theorem C1_inherited_difficulty_scores_NaN :
  scoreGained "constructor" 1 = NaN
  /\ spec_pointsForCorrectAnswer "constructor" 1 = 10
  /\ exists out gameStates',
       answerQuestionTool "p1" "Paris" oddDifficultyGame = (Return out, gameStates')
       /\ AnswerOutput.correct out = true
       /\ AnswerOutput.score out = NaN.
Proof.
  split; [reflexivity|]. split; [reflexivity|].
  eexists. eexists. split; [vm_compute; reflexivity|]. split; reflexivity.
Qed.

(** *** The score never goes below zero *)

(** C2.  In every registry the process can reach, no session has a negative
    score; a granted hint sets the score to [max(0, score - 2)] and a granted
    skip to [max(0, score - 1)], so a penalty on a score below it leaves 0. *)
Theorem C2_score_never_negative
    (gameStates : Store) (playerId : string) (gameState : GameState.t)
    (Hreach : reachable gameStates)
    (Hget : Map_get gameStates playerId = Some gameState) :
  negative (GameState.score gameState) = false
  /\ (forall z, GameState.score gameState = Num z -> 0 <= z)
  /\ (forall pick draw out gameStates',
        getHintTool pick draw playerId gameStates = (Return out, gameStates') ->
        HintOutput.success out = true ->
        exists gameState',
          Map_get gameStates' playerId = Some gameState'
          /\ GameState.score gameState'
             = Math_max (Num 0) (number_sub (GameState.score gameState) (Num 2))
          /\ negative (GameState.score gameState') = false)
  /\ (forall out gameStates',
        skipQuestionTool playerId gameStates = (Return out, gameStates') ->
        SkipOutput.success out = true ->
        exists gameState',
          Map_get gameStates' playerId = Some gameState'
          /\ GameState.score gameState'
             = Math_max (Num 0) (number_sub (GameState.score gameState) (Num 1))
          /\ negative (GameState.score gameState') = false).
Proof.
  pose proof (store_ok_get _ _ _ (reachable_ok _ Hreach) Hget) as Hok.
  split; [apply Hok|]. split; [apply negative_false_iff, Hok|]. split.
  - intros pick draw out st' E Hs.
    destruct (hint_outcomes _ _ _ Hget pick draw)
      as [[_ E']|[[_ [out' [E' Hf]]]|[_ [out' [E' _]]]]]; rewrite E' in E.
    + discriminate.
    + injection E as <- <-. congruence.
    + injection E as <- <-. exists (hint_state gameState).
      split; [apply Map_get_set_same|]. split; [reflexivity | apply negative_max0].
  - intros out st' E Hs.
    destruct (skip_outcomes _ _ _ Hget (ok_index _ Hok))
      as [[_ [out' [E' Hf]]]|[_ [out' [E' _]]]]; rewrite E' in E.
    + injection E as <- <-. congruence.
    + injection E as <- <-. exists (skip_state gameState).
      split; [apply Map_get_set_same|]. split; [reflexivity | apply negative_max0].
Qed.

Lemma freshGame_reachable : reachable freshGame.
Proof. exists [start capitals "p1"]. reflexivity. Defined.

(** A hint on a fresh game, whose score is 0, leaves the score at 0. *)
Lemma C2_score_never_negative_witness :
  exists gameState gameState',
    Map_get freshGame "p1" = Some gameState
    /\ negative (GameState.score gameState) = false
    /\ Map_get (after freshGame (hint "p1")) "p1" = Some gameState'
    /\ GameState.score gameState' = Num 0.
Proof.
  destruct (Map_get freshGame "p1") as [gameState|] eqn:Hget; [|discriminate].
  destruct (C2_score_never_negative freshGame "p1" gameState freshGame_reachable Hget)
    as [Hneg [_ [Hhint _]]].
  destruct (getHintTool 0 (fun i => i) "p1" freshGame) as [[out|msg] gameStates'] eqn:E;
    [|discriminate].
  destruct (Hhint 0%nat (fun i => i) out gameStates' E) as [gameState' [Hget' [Hscore _]]].
  { vm_compute in E. injection E as <- _. reflexivity. }
  exists gameState, gameState'. split; [reflexivity|]. split; [exact Hneg|].
  split.
  - unfold after, hint. rewrite E. exact Hget'.
  - rewrite Hscore. vm_compute in Hget. injection Hget as <-. reflexivity.
Defined.

(** *** Calls without a question to act on *)

(** Answer and hint refuse a missing session and a session without a
    current question, and leave the registry as it was; skip only refuses
    the missing session. *)
Lemma refused_calls (gameStates : Store) (playerId : string) :
  (Map_get gameStates playerId = None ->
     (forall answer, exists msg,
        answerQuestionTool playerId answer gameStates = (Throw msg, gameStates))
     /\ (forall pick draw, exists msg,
           getHintTool pick draw playerId gameStates = (Throw msg, gameStates))
     /\ (exists msg, skipQuestionTool playerId gameStates = (Throw msg, gameStates)))
  /\ (forall gameState,
        Map_get gameStates playerId = Some gameState ->
        index (GameState.questions gameState)
              (GameState.currentQuestionIndex gameState) = None ->
        (forall answer, exists msg,
           answerQuestionTool playerId answer gameStates = (Throw msg, gameStates))
        /\ (forall pick draw, exists msg,
              getHintTool pick draw playerId gameStates = (Throw msg, gameStates))).
Proof.
  split.
  - intros Hnone. repeat split; intros; eexists.
    + now apply answer_no_session.
    + now apply hint_no_session.
    + now apply skip_no_session.
  - intros gameState Hget Hidx. split; intros; eexists.
    + eapply answer_no_question; eassumption.
    + eapply hint_no_question; eassumption.
Qed.

(** C3.  On a completed session answer and hint fail without touching the
    registry, but skip has no such guard: on the finished one-question game
    it returns [success = true], takes its penalty and moves the index on. *)
Theorem C3_skip_accepted_on_completed_session :
  exists gameState,
    Map_get finishedGame "p1" = Some gameState
    /\ completed gameState = true
    /\ GameState.skipsUsed gameState = 0
    /\ answerQuestionTool "p1" "D" finishedGame = (Throw noCurrentQuestion, finishedGame)
    /\ getHintTool 0 (fun i => i) "p1" finishedGame = (Throw noCurrentQuestion, finishedGame)
    /\ exists out gameStates' gameState',
         skipQuestionTool "p1" finishedGame = (Return out, gameStates')
         /\ SkipOutput.success out = true
         /\ gameStates' <> finishedGame
         /\ Map_get gameStates' "p1" = Some gameState'
         /\ GameState.score gameState = Num 10
         /\ GameState.score gameState' = Num 9
         /\ GameState.skipsUsed gameState' = 1.
Proof.
  eexists. split; [vm_compute; reflexivity|].
  repeat (split; [reflexivity|]).
  eexists. eexists. eexists. split; [vm_compute; reflexivity|].
  split; [reflexivity|]. split; [|repeat split; reflexivity].
  vm_compute. discriminate.
Qed.

(** *** Statistics *)

(** C4.  The statistics re-derive each verdict from the recorded raw
    answer, but read a letter against the options of the first question
    and do not trim.  In the game answered "D" and "D" (both judged correct
    on submission) they count one correct answer and 50 percent; for the
    answer "d " (judged correct on submission) they count none. *)
Theorem C4_stats_disagree_with_submission :
  (exists gameState out,
     Map_get twoCorrectLetters "p1" = Some gameState
     /\ GameState.score gameState = Num 25
     /\ spec_correctAnswers gameState = 2
     /\ getGameStatsTool "p1" twoCorrectLetters = (Return out, twoCorrectLetters)
     /\ StatsOutput.correctAnswers out = 1
     /\ StatsOutput.accuracy out = 50)
  /\ (exists gameState out,
        Map_get paddedLetter "p1" = Some gameState
        /\ GameState.score gameState = Num 10
        /\ spec_correctAnswers gameState = 1
        /\ getGameStatsTool "p1" paddedLetter = (Return out, paddedLetter)
        /\ StatsOutput.correctAnswers out = 0
        /\ StatsOutput.accuracy out = 0).
Proof.
  split; (eexists; eexists; split; [vm_compute; reflexivity|];
          repeat split; vm_compute; reflexivity).
Qed.

(** *** The question index *)

(** A hint never moves the index, an accepted answer and a granted skip
    move it by one, and an answer keeps it within the question list. *)
Lemma index_steps (gameStates : Store) (playerId : string) (gameState : GameState.t) :
  Map_get gameStates playerId = Some gameState ->
  (forall pick draw, exists gameState',
     Map_get (snd (getHintTool pick draw playerId gameStates)) playerId = Some gameState'
     /\ GameState.currentQuestionIndex gameState'
        = GameState.currentQuestionIndex gameState)
  /\ (forall answer currentQuestion,
        index (GameState.questions gameState)
              (GameState.currentQuestionIndex gameState) = Some currentQuestion ->
        exists gameState',
          Map_get (snd (answerQuestionTool playerId answer gameStates)) playerId
            = Some gameState'
          /\ GameState.currentQuestionIndex gameState'
             = GameState.currentQuestionIndex gameState + 1
          /\ 0 <= GameState.currentQuestionIndex gameState'
             <= array_length (GameState.questions gameState'))
  /\ (GameState.skipsUsed gameState < 2 ->
      exists gameState',
        Map_get (snd (skipQuestionTool playerId gameStates)) playerId = Some gameState'
        /\ GameState.currentQuestionIndex gameState'
           = GameState.currentQuestionIndex gameState + 1).
Proof.
  intros Hget. split; [|split].
  - intros pick draw.
    destruct (hint_outcomes _ _ _ Hget pick draw)
      as [[_ E]|[[_ [out [E _]]]|[_ [out [E _]]]]]; rewrite E; simpl.
    + eauto.
    + eauto.
    + exists (hint_state gameState). split; [apply Map_get_set_same | reflexivity].
  - intros answer q Hidx.
    destruct (answer_awaiting _ _ answer _ _ (conj Hget Hidx)) as [out [E _]].
    rewrite E. simpl. exists (answer_state gameState q answer).
    split; [apply Map_get_set_same|]. split; [reflexivity|].
    pose proof (index_Some_range _ _ _ Hidx). simpl.
    rewrite array_length_assign. lia.
  - intros Hs. rewrite (skip_commits _ _ _ Hget Hs).
    exists (skip_state gameState). split; [apply Map_get_set_same | reflexivity].
Qed.

(** C8.  The index is meant to stay within [0, len(questions)].  Skip does
    not check for a current question, so skipping the finished one-question
    game leaves a reachable session whose index is 2, past the length 1. *)
Theorem C8_skip_moves_index_past_the_end :
  reachable (after finishedGame (SkipQuestion "p1"))
  /\ exists gameState,
       Map_get (after finishedGame (SkipQuestion "p1")) "p1" = Some gameState
       /\ array_length (GameState.questions gameState) = 1
       /\ GameState.currentQuestionIndex gameState = 2.
Proof.
  split.
  - apply reachable_after. eexists. reflexivity.
  - eexists. split; [vm_compute; reflexivity|]. split; reflexivity.
Qed.

(** *** The streak *)

(** C5.  Whatever the state of a stored session (no assumption on how it
    came about, nor on the value of its streak): when it has a current
    question the answer tool returns, its verdict is the one of lines
    191-203 ([isCorrect]), and the stored streak is one higher than before
    if that verdict is "correct" and 0 if it is "incorrect"; the output
    reports the stored streak.  A skip request that passes the allowance
    guard (fewer than two skips used) stores streak 0 whatever else it
    does, and a skip reported as carried out ([success = true]) has stored
    streak 0.  A hint request, however it ends, leaves the streak as it
    was.  With a question index that is not negative, as the tools keep it,
    a skip request that passes the allowance guard is reported as carried
    out. *)
Theorem C5_streak_transitions
    (gameStates : Store) (playerId : string) (gameState : GameState.t)
    (Hget : Map_get gameStates playerId = Some gameState) :
  (forall answer currentQuestion,
     index (GameState.questions gameState)
           (GameState.currentQuestionIndex gameState) = Some currentQuestion ->
     exists out gameStates' gameState',
       answerQuestionTool playerId answer gameStates = (Return out, gameStates')
       /\ Map_get gameStates' playerId = Some gameState'
       /\ AnswerOutput.correct out = isCorrect currentQuestion answer
       /\ (isCorrect currentQuestion answer = true ->
           GameState.streak gameState' = GameState.streak gameState + 1)
       /\ (isCorrect currentQuestion answer = false ->
           GameState.streak gameState' = 0)
       /\ AnswerOutput.streak out = GameState.streak gameState')
  /\ (GameState.skipsUsed gameState < 2 ->
      exists gameState',
        Map_get (snd (skipQuestionTool playerId gameStates)) playerId = Some gameState'
        /\ GameState.streak gameState' = 0
        /\ GameState.skipsUsed gameState' = GameState.skipsUsed gameState + 1)
  /\ (forall out gameStates',
        skipQuestionTool playerId gameStates = (Return out, gameStates') ->
        SkipOutput.success out = true ->
        exists gameState',
          Map_get gameStates' playerId = Some gameState'
          /\ GameState.streak gameState' = 0)
  /\ (forall pick draw,
        exists gameState',
          Map_get (snd (getHintTool pick draw playerId gameStates)) playerId
            = Some gameState'
          /\ GameState.streak gameState' = GameState.streak gameState)
  /\ (GameState.skipsUsed gameState < 2 ->
      0 <= GameState.currentQuestionIndex gameState ->
      exists out gameStates',
        skipQuestionTool playerId gameStates = (Return out, gameStates')
        /\ SkipOutput.success out = true).
Proof.
  split; [|split; [|split; [|split]]]; cycle 4.
  - intros Hs Hi. destruct (skip_granted _ _ _ Hget Hs Hi) as [out [E [Hsuccess _]]].
    eauto.
  - intros answer q Hidx.
    destruct (answer_awaiting _ _ answer _ _ (conj Hget Hidx))
      as [out [E [Hc [_ [Hs _]]]]].
    exists out, (Map_set gameStates playerId (answer_state gameState q answer)),
      (answer_state gameState q answer).
    split; [exact E|]. split; [apply Map_get_set_same|]. split; [exact Hc|].
    split; [|split; [|exact Hs]]; intros Hv; unfold answer_state; rewrite Hv;
      reflexivity.
  - intros Hs. rewrite (skip_commits _ _ _ Hget Hs).
    exists (skip_state gameState). split; [apply Map_get_set_same|].
    split; reflexivity.
  - intros out st' E Hsuccess.
    destruct (Z.lt_ge_cases (GameState.skipsUsed gameState) 2) as [Hs|Hs].
    + pose proof (skip_commits _ _ _ Hget Hs) as Hcommit.
      rewrite E in Hcommit. cbn [snd] in Hcommit. subst st'.
      exists (skip_state gameState). split; [apply Map_get_set_same | reflexivity].
    + rewrite (skip_exhausted _ _ _ Hget Hs) in E. injection E as <- _.
      discriminate.
  - intros pick draw.
    destruct (hint_outcomes _ _ _ Hget pick draw)
      as [[_ E]|[[_ [out [E _]]]|[_ [out [E _]]]]]; rewrite E; simpl.
    + eauto.
    + eauto.
    + exists (hint_state gameState). split; [apply Map_get_set_same | reflexivity].
Qed.

(** After two correct answers the streak is 2 and the hard third question
    is current (options Tunis, Rabat, Accra, Cairo).  The correct answer
    "cairo" takes the streak to 3, the wrong answer "Tunis" and a skip take
    it to 0, a hint leaves it at 2. *)
Lemma C5_streak_transitions_witness :
  exists gameState,
    Map_get twoCorrectLetters "p1" = Some gameState
    /\ GameState.streak gameState = 2
    /\ (exists out gameStates' gameState',
          answerQuestionTool "p1" "cairo" twoCorrectLetters = (Return out, gameStates')
          /\ Map_get gameStates' "p1" = Some gameState'
          /\ AnswerOutput.correct out = true
          /\ GameState.streak gameState' = 3
          /\ AnswerOutput.streak out = 3)
    /\ (exists out gameStates' gameState',
          answerQuestionTool "p1" "Tunis" twoCorrectLetters = (Return out, gameStates')
          /\ Map_get gameStates' "p1" = Some gameState'
          /\ AnswerOutput.correct out = false
          /\ GameState.streak gameState' = 0
          /\ AnswerOutput.streak out = 0)
    /\ (exists gameState',
          Map_get (snd (skipQuestionTool "p1" twoCorrectLetters)) "p1" = Some gameState'
          /\ GameState.streak gameState' = 0)
    /\ (exists gameState',
          Map_get (snd (getHintTool 0 (fun i => i) "p1" twoCorrectLetters)) "p1"
            = Some gameState'
          /\ GameState.streak gameState' = 2).
Proof.
  destruct (Map_get twoCorrectLetters "p1") as [gameState|] eqn:Hget; [|discriminate].
  destruct (C5_streak_transitions twoCorrectLetters "p1" gameState Hget)
    as [Hanswer [Hskip [_ [Hhint _]]]].
  exists gameState. split; [reflexivity|].
  vm_compute in Hget. injection Hget as <-.
  split; [reflexivity|]. split; [|split; [|split]].
  - destruct (Hanswer "cairo" _ eq_refl)
      as [out [gameStates' [gameState' [E [Hg [Hc [Hup [_ Hout]]]]]]]].
    exists out, gameStates', gameState'.
    split; [exact E|]. split; [exact Hg|]. split; [exact Hc|].
    pose proof (Hup eq_refl) as Hstreak. cbn in Hstreak.
    split; [exact Hstreak|]. rewrite Hout. exact Hstreak.
  - destruct (Hanswer "Tunis" _ eq_refl)
      as [out [gameStates' [gameState' [E [Hg [Hc [_ [Hdown Hout]]]]]]]].
    exists out, gameStates', gameState'.
    split; [exact E|]. split; [exact Hg|]. split; [exact Hc|].
    pose proof (Hdown eq_refl) as Hstreak.
    split; [exact Hstreak|]. rewrite Hout. exact Hstreak.
  - destruct (Hskip ltac:(simpl; lia)) as [gameState' [Hg [Hstreak _]]].
    exists gameState'. split; assumption.
  - destruct (Hhint 0%nat (fun i => i)) as [gameState' [Hg Hstreak]].
    exists gameState'. split; [exact Hg | exact Hstreak].
Defined.

(** *** Hint and skip allowances *)

(** C6.  In every reachable registry a session has used at most 3 hints and
    at most 2 skips.  With 3 hints used, a hint request on a current
    question returns [success = false] and the registry is unchanged; with
    2 skips used, a skip request returns [success = false] and the registry
    is unchanged. *)
Theorem C6_allowances
    (gameStates : Store) (playerId : string) (gameState : GameState.t)
    (Hreach : reachable gameStates)
    (Hget : Map_get gameStates playerId = Some gameState) :
  (GameState.hintsUsed gameState <= 3 /\ GameState.skipsUsed gameState <= 2)
  /\ (3 <= GameState.hintsUsed gameState ->
      forall pick draw currentQuestion,
        index (GameState.questions gameState)
              (GameState.currentQuestionIndex gameState) = Some currentQuestion ->
        exists out,
          getHintTool pick draw playerId gameStates = (Return out, gameStates)
          /\ HintOutput.success out = false
          /\ HintOutput.scorePenalty out = 0
          /\ HintOutput.hintsUsed out = GameState.hintsUsed gameState)
  /\ (2 <= GameState.skipsUsed gameState ->
      exists out,
        skipQuestionTool playerId gameStates = (Return out, gameStates)
        /\ SkipOutput.success out = false
        /\ SkipOutput.scorePenalty out = 0
        /\ SkipOutput.skipsUsed out = GameState.skipsUsed gameState).
Proof.
  pose proof (store_ok_get _ _ _ (reachable_ok _ Hreach) Hget) as Hok.
  split; [split; apply Hok|]. split.
  - intros Hh pick draw q Hidx. eexists. split.
    + apply hint_exhausted with (currentQuestion := q); [split; eassumption | exact Hh].
    + repeat split.
  - intros Hs. eexists. split.
    + apply skip_exhausted; eassumption.
    + repeat split.
Qed.

Lemma spentGame_reachable : reachable spentGame.
Proof. eexists. reflexivity. Defined.

(** After three hints and two skips the fourth hint and the third skip are
    refused and change nothing. *)
Lemma C6_allowances_witness :
  exists gameState,
    Map_get spentGame "p1" = Some gameState
    /\ GameState.hintsUsed gameState = 3
    /\ GameState.skipsUsed gameState = 2
    /\ (exists out,
          getHintTool 0 (fun i => i) "p1" spentGame = (Return out, spentGame)
          /\ HintOutput.success out = false)
    /\ (exists out,
          skipQuestionTool "p1" spentGame = (Return out, spentGame)
          /\ SkipOutput.success out = false).
Proof.
  destruct (Map_get spentGame "p1") as [gameState|] eqn:Hget; [|discriminate].
  destruct (C6_allowances spentGame "p1" gameState spentGame_reachable Hget)
    as [_ [Hhint Hskip]].
  exists gameState. split; [reflexivity|].
  vm_compute in Hget. injection Hget as <-.
  split; [reflexivity|]. split; [reflexivity|]. split.
  - destruct (Hhint ltac:(simpl; lia) 0%nat (fun i => i) _ eq_refl) as [out [Eh [Hs _]]].
    exists out. split; assumption.
  - destruct (Hskip ltac:(simpl; lia)) as [out [Es [Hs _]]].
    exists out. split; assumption.
Defined.

(** *** Equivalent ways of giving an answer *)

(** C7 as stated fails: in the game whose options are A, C, D, B (B
    correct), the letter of option 3 is "D" and is judged correct, while the
    literal text of option 3, "B", is read as the letter of option 1 and
    judged incorrect. *)
Lemma C7_letter_differs_from_text :
  exists gameState currentQuestion,
    awaiting letterGame "p1" gameState currentQuestion
    /\ index (Question.options currentQuestion) 3 = Some "B"
    /\ letterOf 3 = "D"
    /\ (exists out gameStates',
          answerQuestionTool "p1" (letterOf 3) letterGame = (Return out, gameStates')
          /\ AnswerOutput.correct out = true /\ AnswerOutput.score out = Num 10)
    /\ (exists out gameStates',
          answerQuestionTool "p1" "B" letterGame = (Return out, gameStates')
          /\ AnswerOutput.correct out = false /\ AnswerOutput.score out = Num 0)
    /\ fst (answerQuestionTool "p1" (letterOf 3) letterGame)
       <> fst (answerQuestionTool "p1" "B" letterGame).
Proof.
  eexists. eexists. split; [split; vm_compute; reflexivity|].
  split; [reflexivity|]. split; [reflexivity|].
  split; [eexists; eexists; split; [vm_compute; reflexivity | split; reflexivity]|].
  split; [eexists; eexists; split; [vm_compute; reflexivity | split; reflexivity]|].
  vm_compute. discriminate.
Qed.

(** The text comparison ignores case and the letter comparison does not:
    with the options paris, Rome, Oslo, Paris (Paris correct) the letter "A"
    is judged incorrect and the text of option 0, "paris", correct. *)
Lemma letter_differs_from_text_by_case :
  exists gameState currentQuestion,
    awaiting caseGame "p1" gameState currentQuestion
    /\ index (Question.options currentQuestion) 0 = Some "paris"
    /\ isCorrect currentQuestion (letterOf 0) = false
    /\ isCorrect currentQuestion "paris" = true.
Proof.
  eexists. eexists. split; [split; vm_compute; reflexivity|].
  repeat split; reflexivity.
Qed.

(** The same with an accented letter, which [toUpperCase] maps as it maps
    a-z: with the options U+00C9, x, y, U+00E9 (U+00E9 correct) the letter
    "A" is judged incorrect and the text of option 0, U+00C9, correct. *)
Lemma letter_differs_from_text_by_accent :
  exists gameState currentQuestion,
    awaiting accentGame "p1" gameState currentQuestion
    /\ Question.options currentQuestion = [Eacute; "x"; "y"; eacute]
    /\ Question.correct currentQuestion = eacute
    /\ toUpperCase eacute = Eacute
    /\ isCorrect currentQuestion (letterOf 0) = false
    /\ isCorrect currentQuestion Eacute = true
    /\ fst (answerQuestionTool "p1" (letterOf 0) accentGame)
       <> fst (answerQuestionTool "p1" Eacute accentGame).
Proof.
  eexists. eexists. split; [split; vm_compute; reflexivity|].
  repeat (split; [reflexivity|]). vm_compute. discriminate.
Qed.

(** C7, amended.  On a session that awaits an answer, let [text] be option
    [i] of the current question.  If the trimmed, upper-cased [text] is not
    itself one of the letters A-D, and [text] is the correct answer exactly
    when its trimmed, upper-cased form equals the upper-cased correct
    answer, then answering with the letter of [i] and answering with [text]
    give the same output (verdict, score, streak, next question, completion)
    and the same registry up to the recorded raw answer; the condition on
    [text] is also necessary, as outputs that agree agree on the verdict.
    Any answer and its trimmed, upper-cased form give the same output and
    registry without condition. *)
Theorem C7_equivalent_answers
    (gameStates : Store) (playerId : string) (gameState : GameState.t)
    (currentQuestion : Question.t)
    (Hwait : awaiting gameStates playerId gameState currentQuestion) :
  (forall i text,
     0 <= i <= 3 ->
     index (Question.options currentQuestion) i = Some text ->
     test_A_D (toUpperCase (trim text)) = false ->
     (text = Question.correct currentQuestion
      <-> toUpperCase (trim text) = toUpperCase (Question.correct currentQuestion)) ->
     fst (answerQuestionTool playerId (letterOf i) gameStates)
     = fst (answerQuestionTool playerId text gameStates)
     /\ forgetAnswers (snd (answerQuestionTool playerId (letterOf i) gameStates))
        = forgetAnswers (snd (answerQuestionTool playerId text gameStates)))
  /\ (forall answer,
        fst (answerQuestionTool playerId answer gameStates)
        = fst (answerQuestionTool playerId (toUpperCase (trim answer)) gameStates)
        /\ forgetAnswers (snd (answerQuestionTool playerId answer gameStates))
           = forgetAnswers
               (snd (answerQuestionTool playerId (toUpperCase (trim answer)) gameStates)))
  /\ (forall answer, exists out gameStates',
        answerQuestionTool playerId answer gameStates = (Return out, gameStates'))
  /\ (forall i text,
        0 <= i <= 3 ->
        index (Question.options currentQuestion) i = Some text ->
        test_A_D (toUpperCase (trim text)) = false ->
        fst (answerQuestionTool playerId (letterOf i) gameStates)
        = fst (answerQuestionTool playerId text gameStates) ->
        (text = Question.correct currentQuestion
         <-> toUpperCase (trim text) = toUpperCase (Question.correct currentQuestion))).
Proof.
  split; [|split; [|split]]; cycle 3.
  - intros i text Hi Hopt Hletter Hsame.
    destruct (answer_awaiting _ _ (letterOf i) _ _ Hwait) as [out1 [E1 [Hc1 _]]].
    destruct (answer_awaiting _ _ text _ _ Hwait) as [out2 [E2 [Hc2 _]]].
    rewrite E1, E2 in Hsame. cbn [fst] in Hsame. injection Hsame as Hout.
    rewrite Hout, Hc2 in Hc1.
    rewrite (isCorrect_letter _ _ _ Hi Hopt), (isCorrect_text _ _ Hletter) in Hc1.
    destruct (String.eqb_spec text (Question.correct currentQuestion)) as [E|E];
      destruct (String.eqb_spec (toUpperCase (trim text))
                  (toUpperCase (Question.correct currentQuestion))) as [E'|E'];
      try discriminate; tauto.
  - intros i text Hi Hopt Hletter Hiff.
    apply answer_congruence with (gameState := gameState)
                                 (currentQuestion := currentQuestion); [exact Hwait|].
    rewrite (isCorrect_letter _ _ _ Hi Hopt), (isCorrect_text _ _ Hletter).
    destruct (String.eqb_spec text (Question.correct currentQuestion)) as [E|E];
      destruct (String.eqb_spec (toUpperCase (trim text))
                  (toUpperCase (Question.correct currentQuestion))) as [E'|E'];
      try reflexivity; tauto.
  - intros answer.
    apply answer_congruence with (gameState := gameState)
                                 (currentQuestion := currentQuestion); [exact Hwait|].
    symmetry. apply isCorrect_normalized.
  - intros answer.
    destruct (answer_awaiting _ _ answer _ _ Hwait) as [out [E _]]. eauto.
Qed.

(** On the fresh game (options Rome, Oslo, Bern, Paris): "D" and "Paris"
    agree, and so do "  paris " and "PARIS". *)
Lemma C7_equivalent_answers_witness :
  fst (answerQuestionTool "p1" "D" freshGame)
  = fst (answerQuestionTool "p1" "Paris" freshGame)
  /\ forgetAnswers (snd (answerQuestionTool "p1" "D" freshGame))
     = forgetAnswers (snd (answerQuestionTool "p1" "Paris" freshGame))
  /\ fst (answerQuestionTool "p1" "  paris " freshGame)
     = fst (answerQuestionTool "p1" "PARIS" freshGame).
Proof.
  destruct (Map_get freshGame "p1") as [gameState|] eqn:Hget; [|discriminate].
  vm_compute in Hget. injection Hget as Hgs.
  pose proof (C7_equivalent_answers freshGame "p1" gameState
                (Question.mk "q-1" "Geography" "easy" "Which one?"
                   ["Rome"; "Oslo"; "Bern"; "Paris"] "Paris" false None)) as H.
  rewrite <- Hgs in H.
  destruct (H (conj eq_refl eq_refl)) as [Hletter [Hnorm _]].
  destruct (Hletter 3 "Paris") as [H1 H2];
    [lia | reflexivity | reflexivity | split; reflexivity |].
  split; [exact H1|]. split; [exact H2|].
  exact (proj1 (Hnorm "  paris ")).
Defined.

(** *** Incorrect answers *)

(** C10.  On a session that awaits an answer, an answer judged incorrect is
    accepted and leaves the score and the hint and skip counters as they
    were; it resets the streak, marks the current question answered with
    the raw answer, leaves the other questions alone and moves the index by
    one. *)
Theorem C10_incorrect_answer_frame
    (gameStates : Store) (playerId answer : string) (gameState : GameState.t)
    (currentQuestion : Question.t)
    (Hwait : awaiting gameStates playerId gameState currentQuestion)
    (Hwrong : isCorrect currentQuestion answer = false) :
  exists out gameStates' gameState',
    answerQuestionTool playerId answer gameStates = (Return out, gameStates')
    /\ AnswerOutput.correct out = false
    /\ AnswerOutput.score out = GameState.score gameState
    /\ Map_get gameStates' playerId = Some gameState'
    /\ GameState.score gameState' = GameState.score gameState
    /\ GameState.hintsUsed gameState' = GameState.hintsUsed gameState
    /\ GameState.skipsUsed gameState' = GameState.skipsUsed gameState
    /\ GameState.streak gameState' = 0
    /\ GameState.currentQuestionIndex gameState'
       = GameState.currentQuestionIndex gameState + 1
    /\ index (GameState.questions gameState') (GameState.currentQuestionIndex gameState)
       = Some (Question.record_answer currentQuestion answer)
    /\ (forall j, j <> GameState.currentQuestionIndex gameState ->
          index (GameState.questions gameState') j
          = index (GameState.questions gameState) j)
    /\ (forall other, other <> playerId ->
          Map_get gameStates' other = Map_get gameStates other).
Proof.
  destruct (answer_awaiting _ _ answer _ _ Hwait) as [out [E [Hc [Hs _]]]].
  destruct Hwait as [Hget Hidx]. pose proof (index_Some_range _ _ _ Hidx) as Hr.
  exists out, (Map_set gameStates playerId (answer_state gameState currentQuestion answer)),
    (answer_state gameState currentQuestion answer).
  split; [exact E|]. split; [congruence|].
  unfold answer_state in *. rewrite Hwrong in *. simpl in *.
  split; [exact Hs|]. split; [apply Map_get_set_same|].
  repeat (split; [reflexivity|]).
  split; [eapply index_assign_same; eassumption|]. split.
  - intros j Hj. apply index_assign_other. lia.
  - intros other Hother. now apply Map_get_set_other.
Qed.

(** On the fresh game the wrong answer "Rome" keeps the score at 0. *)
Lemma C10_incorrect_answer_frame_witness :
  exists out gameStates' gameState',
    answerQuestionTool "p1" "Rome" freshGame = (Return out, gameStates')
    /\ AnswerOutput.correct out = false
    /\ Map_get gameStates' "p1" = Some gameState'
    /\ GameState.score gameState' = Num 0
    /\ GameState.hintsUsed gameState' = 0
    /\ GameState.skipsUsed gameState' = 0.
Proof.
  destruct (Map_get freshGame "p1") as [gameState|] eqn:Hget; [|discriminate].
  vm_compute in Hget. injection Hget as Hgs.
  pose proof (C10_incorrect_answer_frame freshGame "p1" "Rome" gameState
                (Question.mk "q-1" "Geography" "easy" "Which one?"
                   ["Rome"; "Oslo"; "Bern"; "Paris"] "Paris" false None)) as H.
  rewrite <- Hgs in H.
  destruct (H (conj eq_refl eq_refl) eq_refl)
    as [out [gameStates' [gameState' [E [Hc [_ [Hg [Hs [Hh [Hk _]]]]]]]]]].
  exists out, gameStates', gameState'. repeat split; assumption.
Defined.

(** *** The leaderboard *)

(** What the leaderboard call does on every registry: it leaves the
    registry as it is and reports its full size as [totalPlayers]; its
    entries are the first ten of a ranking that holds exactly one entry per
    stored session (player id, score, streak, number of answered
    questions).  When the stored scores are numbers, the ranking and the
    entries are in descending order of score. *)
Lemma leaderboard_report (gameStates : Store) :
  snd (getLeaderboardTool gameStates) = gameStates
  /\ LeaderboardOutput.totalPlayers (fst (getLeaderboardTool gameStates))
     = Z.of_nat (List.length gameStates)
  /\ (List.length (LeaderboardOutput.leaderboard (fst (getLeaderboardTool gameStates)))
      = Nat.min 10 (List.length gameStates))
  /\ (exists ranking,
        LeaderboardOutput.leaderboard (fst (getLeaderboardTool gameStates))
        = List.firstn 10 ranking
        /\ Permutation ranking
             (List.map (fun kv =>
                Entry.mk (fst kv) (GameState.score (snd kv)) (GameState.streak (snd kv))
                  (Z.of_nat (List.length
                     (List.filter Question.answered (GameState.questions (snd kv))))))
                gameStates)
        /\ (Forall (fun kv => numeric (GameState.score (snd kv))) gameStates ->
            StronglySorted score_ge ranking))
  /\ (Forall (fun kv => numeric (GameState.score (snd kv))) gameStates ->
      StronglySorted score_ge
        (LeaderboardOutput.leaderboard (fst (getLeaderboardTool gameStates)))).
Proof.
  assert (Hmap : List.map toEntry gameStates
                 = List.map (fun kv =>
                     Entry.mk (fst kv) (GameState.score (snd kv))
                       (GameState.streak (snd kv))
                       (Z.of_nat (List.length
                          (List.filter Question.answered
                             (GameState.questions (snd kv))))))
                     gameStates).
  { apply List.map_ext. intros [k gs]. reflexivity. }
  unfold getLeaderboardTool. cbn [fst snd LeaderboardOutput.leaderboard
                                  LeaderboardOutput.totalPlayers].
  split; [reflexivity|]. split; [reflexivity|]. split.
  { rewrite List.length_firstn, sort_length, List.length_map. reflexivity. }
  split.
  - exists (sort (List.map toEntry gameStates)). split; [reflexivity|]. split.
    + rewrite <- Hmap. apply sort_perm.
    + intros Hnum. apply sort_sorted, toEntry_numeric, Hnum.
  - intros Hnum. apply StronglySorted_firstn, sort_sorted, toEntry_numeric, Hnum.
Qed.

(** Three players with the scores 0, 10 and 25 are listed as 25, 10, 0. *)
Lemma leaderboard_three_players :
  StronglySorted score_ge
    (LeaderboardOutput.leaderboard (fst (getLeaderboardTool threePlayers)))
  /\ List.map Entry.playerId
       (LeaderboardOutput.leaderboard (fst (getLeaderboardTool threePlayers)))
     = ["cy"; "bob"; "ann"]
  /\ LeaderboardOutput.totalPlayers (fst (getLeaderboardTool threePlayers)) = 3.
Proof.
  destruct (leaderboard_report threePlayers) as [_ [Htotal [_ [_ Hsorted]]]].
  split; [|split; [reflexivity | exact Htotal]].
  apply Hsorted. repeat constructor; discriminate.
Qed.

(** No list of two or more entries that holds a score that is not a number
    is in descending order of score, however it is arranged: [NaN] is
    neither above nor below any score. *)
Lemma not_a_number_breaks_order (l : list Entry.t) (e : Entry.t) :
  In e l -> Entry.score e = NaN -> (2 <= List.length l)%nat ->
  ~ StronglySorted score_ge l.
Proof.
  intros Hin Hnan Hlen Hsorted.
  inversion Hsorted as [|x tl Htl Hall]; subst; [simpl in Hlen; lia|].
  destruct Hin as [->|Hin].
  - destruct tl as [|y tl']; [simpl in Hlen; lia|].
    inversion Hall as [|? ? Hxy _]; subst.
    unfold score_ge in Hxy. rewrite Hnan in Hxy. exact Hxy.
  - rewrite Forall_forall in Hall. specialize (Hall e Hin).
    unfold score_ge in Hall. rewrite Hnan in Hall.
    destruct (Entry.score x); exact Hall.
Qed.

(** C9.  The entries are meant to be listed in descending order of score.
    The board [nanBoard] is reached by six calls: "a" answers an easy
    question correctly (10 points), "c" one whose difficulty is
    "constructor" (the score becomes [NaN], as in C1), "d" a medium one (15
    points).  The leaderboard lists a, c, d in that order, with the scores
    10, NaN, 15: the player with 15 points stands below the player with 10.
    No arrangement of these three entries is in descending order, so the
    failure does not depend on the order an engine picks when the
    comparator returns [NaN]. *)
Theorem C9_leaderboard_not_descending :
  reachable nanBoard
  /\ List.map (fun e => (Entry.playerId e, Entry.score e))
       (LeaderboardOutput.leaderboard (fst (getLeaderboardTool nanBoard)))
     = [("a", Num 10); ("c", NaN); ("d", Num 15)]
  /\ ~ StronglySorted score_ge
        (LeaderboardOutput.leaderboard (fst (getLeaderboardTool nanBoard)))
  /\ (forall ranking,
        Permutation ranking (List.map toEntry nanBoard) ->
        ~ StronglySorted score_ge ranking).
Proof.
  assert (Hany : forall ranking,
             Permutation ranking (List.map toEntry nanBoard) ->
             ~ StronglySorted score_ge ranking).
  { intros ranking Hperm.
    apply not_a_number_breaks_order with (e := Entry.mk "c" NaN 1 1).
    - apply (Permutation_in _ (Permutation_sym Hperm)).
      vm_compute. right. left. reflexivity.
    - reflexivity.
    - rewrite (Permutation_length Hperm). vm_compute. lia. }
  split; [eexists; reflexivity|]. split; [vm_compute; reflexivity|].
  split; [|exact Hany].
  apply Hany. unfold getLeaderboardTool. cbn [fst LeaderboardOutput.leaderboard].
  rewrite List.firstn_all2; [apply sort_perm|].
  rewrite sort_length. vm_compute. lia.
Qed.

(* ================================================================== *)
(** ** Further properties: the utilities *)
(* ================================================================== *)

(** *** [decodeHtml] *)

Lemma prefix_ampersand (pat s : string) (c : ascii) :
  Ascii.eqb c "&" = false -> String.prefix (String "&" pat) (String c s) = false.
Proof.
  intros Hc. cbn [String.prefix]. destruct (ascii_dec "&" c) as [E|E]; [|reflexivity].
  subst c. discriminate.
Qed.

Lemma replaceAll_without_ampersand (pat rep s : string) :
  hasAmpersand s = false -> replaceAll (String "&" pat) rep s = s.
Proof.
  unfold replaceAll. induction s as [|c s IH]; intros H; [reflexivity|].
  simpl in H. apply Bool.orb_false_iff in H. destruct H as [Hc Hs].
  cbn [replaceAll_from]. rewrite (prefix_ampersand _ _ _ Hc).
  now rewrite IH.
Qed.

(** X1.  A text without the character & has no entity to decode:
    [decodeHtml] returns it as it is. *)
Theorem X1_decodeHtml_without_ampersand (str : string)
    (Hclean : hasAmpersand str = false) :
  decodeHtml str = str.
Proof.
  unfold decodeHtml. destruct (String.eqb str ""); [reflexivity|].
  now rewrite !(replaceAll_without_ampersand _ _ str Hclean).
Qed.

Lemma X1_decodeHtml_without_ampersand_witness :
  decodeHtml "Who wrote 'Hamlet'?" = "Who wrote 'Hamlet'?".
Proof. apply X1_decodeHtml_without_ampersand. reflexivity. Defined.

Lemma prefix_length (pat s : string) :
  String.prefix pat s = true -> (String.length pat <= String.length s)%nat.
Proof.
  revert s. induction pat as [|a pat IH]; intros [|b s];
    cbn [String.prefix String.length]; intros H; try lia; try discriminate.
  destruct (ascii_dec a b); [|discriminate]. apply IH in H. lia.
Qed.

Lemma length_append (s t : string) :
  String.length (String.append s t) = (String.length s + String.length t)%nat.
Proof. induction s as [|c s IH]; simpl; [reflexivity | now rewrite IH]. Qed.

Lemma replaceAll_from_length (pat rep s : string) (skip : nat) :
  (String.length rep <= String.length pat)%nat ->
  (skip <= String.length s)%nat ->
  (String.length (replaceAll_from pat rep s skip) + skip <= String.length s)%nat.
Proof.
  intros Hrep. revert skip. induction s as [|c s IH]; intros skip Hskip.
  - simpl in *. lia.
  - destruct skip as [|k].
    + cbn [replaceAll_from].
      destruct (String.prefix pat (String c s)) eqn:Hp.
      * apply prefix_length in Hp. rewrite length_append.
        cbn [String.length] in *.
        specialize (IH (String.length pat - 1)%nat). lia.
      * cbn [String.length]. specialize (IH 0%nat). lia.
    + cbn [replaceAll_from String.length] in *. specialize (IH k). lia.
Qed.

Lemma replaceAll_length (pat rep s : string) :
  (String.length rep <= String.length pat)%nat ->
  (String.length (replaceAll pat rep s) <= String.length s)%nat.
Proof.
  intros H. pose proof (replaceAll_from_length pat rep s 0 H). unfold replaceAll. lia.
Qed.

(** X2.  Decoding never lengthens a text: every entity is replaced by
    something shorter. *)
Theorem X2_decodeHtml_never_longer (str : string) :
  (String.length (decodeHtml str) <= String.length str)%nat.
Proof.
  unfold decodeHtml. destruct (String.eqb str ""); [lia|].
  repeat (etransitivity; [apply replaceAll_length; simpl; lia|]).
  lia.
Qed.

Lemma replaceAll_app_clean (pat rep s t : string) :
  hasAmpersand s = false ->
  replaceAll (String "&" pat) rep (String.append s t)
  = String.append s (replaceAll (String "&" pat) rep t).
Proof.
  unfold replaceAll. induction s as [|c s IH]; intros H; [reflexivity|].
  simpl in H. apply Bool.orb_false_iff in H. destruct H as [Hc Hs].
  cbn [String.append replaceAll_from]. rewrite (prefix_ampersand _ _ _ Hc).
  now rewrite IH.
Qed.

Lemma replaceAll_from_clean (pat rep s : string) :
  hasAmpersand s = false -> replaceAll_from (String "&" pat) rep s 0 = s.
Proof. apply replaceAll_without_ampersand. Qed.

Lemma replaceAll_after_clean (pat rep s t : string) :
  hasAmpersand s = false ->
  replaceAll (String "&" pat) rep (String.append s t)
  = String.append s (replaceAll_from (String "&" pat) rep t 0).
Proof. apply replaceAll_app_clean. Qed.

Lemma prefix_empty (s : string) : String.prefix "" s = true.
Proof. destruct s; reflexivity. Qed.

(** One replacement of the chain, on a text that starts with [before] and
    ends with [after], both free of ampersands. *)
Ltac decode_step before after Hb Ha :=
  rewrite (replaceAll_after_clean _ _ before _ Hb);
  cbn -[replaceAll];
  rewrite ?prefix_empty;
  cbn -[replaceAll];
  rewrite ?(replaceAll_from_clean _ _ after Ha).

(** X3.  The replacements run in a fixed order, the one for [&amp;] third.
    An escaped ampersand in front of [lt;] is therefore decoded twice and
    comes out as [<], while in front of [quot;], whose replacement ran
    before, it comes out as the entity text [&quot;]. *)
Theorem X3_decodeHtml_order (before after : string)
    (Hbefore : hasAmpersand before = false)
    (Hafter : hasAmpersand after = false) :
  decodeHtml (String.append before (String.append "&amp;lt;" after))
  = String.append before (String.append "<" after)
  /\ decodeHtml (String.append before (String.append "&amp;quot;" after))
     = String.append before (String.append "&quot;" after).
Proof.
  unfold decodeHtml. split.
  - destruct (String.eqb _ "") eqn:E; [destruct before; discriminate|].
    clear E. cbn [String.append].
    do 10 decode_step before after Hbefore Hafter. reflexivity.
  - destruct (String.eqb _ "") eqn:E; [destruct before; discriminate|].
    clear E. cbn [String.append].
    do 10 decode_step before after Hbefore Hafter. reflexivity.
Qed.

Lemma X3_decodeHtml_order_witness :
  decodeHtml "1 &amp;lt; 2" = "1 < 2"
  /\ decodeHtml "say &amp;quot;hi" = "say &quot;hi".
Proof.
  split.
  - exact (proj1 (X3_decodeHtml_order "1 " " 2" eq_refl eq_refl)).
  - exact (proj2 (X3_decodeHtml_order "say " "hi" eq_refl eq_refl)).
Defined.

(** *** [shuffleArray] *)

Lemma assign_swap_head {A : Type} (x y : A) (tl : list A) (j : nat) :
  nth_error tl j = Some y -> Permutation (y :: assign tl j x) (x :: tl).
Proof.
  revert j. induction tl as [|b tl IH]; intros [|j]; simpl; intros H;
    try discriminate.
  - injection H as ->. apply perm_swap.
  - transitivity (b :: y :: assign tl j x); [apply perm_swap|].
    transitivity (b :: x :: tl); [constructor; now apply IH | apply perm_swap].
Qed.

Lemma swap_cons {A : Type} (a : A) (tl : list A) (i j : nat) :
  swap (a :: tl) (S i) (S j) = a :: swap tl i j.
Proof.
  unfold swap. simpl.
  destruct (nth_error tl i); [|reflexivity]. destruct (nth_error tl j); reflexivity.
Qed.

Lemma swap_perm {A : Type} (l : list A) (i j : nat) : Permutation (swap l i j) l.
Proof.
  revert i j. induction l as [|a tl IH]; intros i j.
  - unfold swap. destruct (nth_error [] i); [destruct (nth_error [] j)|]; reflexivity.
  - destruct i as [|i], j as [|j].
    + reflexivity.
    + unfold swap. simpl. destruct (nth_error tl j) as [y|] eqn:E; [|reflexivity].
      now apply assign_swap_head.
    + unfold swap. simpl. destruct (nth_error tl i) as [x|] eqn:E; [|reflexivity].
      now apply assign_swap_head.
    + rewrite swap_cons. constructor. apply IH.
Qed.

Lemma shuffle_from_perm {A : Type} (draw : nat -> nat) (i : nat) (l : list A) :
  Permutation (shuffle_from draw i l) l.
Proof.
  revert l. induction i as [|i IH]; intros l; simpl; [reflexivity|].
  rewrite IH. apply swap_perm.
Qed.

Lemma shuffleArray_perm {A : Type} (draw : nat -> nat) (array : list A) :
  Permutation (shuffleArray draw array) array.
Proof. apply shuffle_from_perm. Qed.

(** X4.  With the draws [Math.random] can produce, the shuffled array is a
    rearrangement of the input: same length, same elements, each as often
    as before. *)
Theorem X4_shuffleArray_rearranges {A : Type} (draw : nat -> nat) (array : list A)
    (Hdraw : inRange draw) :
  Permutation (shuffleArray draw array) array
  /\ List.length (shuffleArray draw array) = List.length array
  /\ (forall x, In x (shuffleArray draw array) <-> In x array).
Proof.
  pose proof (shuffle_from_perm draw (List.length array - 1) array) as H.
  unfold shuffleArray. split; [exact H|]. split.
  - apply Permutation_length, H.
  - intros x. split; apply Permutation_in; [exact H | symmetry; exact H].
Qed.

Lemma X4_shuffleArray_rearranges_witness :
  shuffleArray (fun _ => 0%nat) ["Rome"; "Oslo"; "Bern"; "Paris"]
  = ["Oslo"; "Bern"; "Paris"; "Rome"]
  /\ Permutation (shuffleArray (fun _ => 0%nat) ["Rome"; "Oslo"; "Bern"; "Paris"])
       ["Rome"; "Oslo"; "Bern"; "Paris"].
Proof.
  split; [reflexivity|].
  apply (X4_shuffleArray_rearranges (fun _ => 0%nat)). intros i. apply Nat.le_0_l.
Defined.

(* ================================================================== *)
(** ** Further properties: how a call changes the registry *)
(* ================================================================== *)

(** The session a successful start stores. *)
Lemma start_outcomes draw today response playerId questionsCount gameStates :
  (startGameTool draw today response playerId questionsCount gameStates
   = (StartOutput.mk false StartFailed None 0, gameStates)
   /\ (response = None \/ response = Some []))
  \/ (exists results first rest,
        response = Some results
        /\ buildQuestions draw results = first :: rest
        /\ startGameTool draw today response playerId questionsCount gameStates
           = (StartOutput.mk true
                (Welcome (match questionsCount with Some n => n | None => 10 end))
                (Some (view 1 first))
                (array_length (first :: rest)),
              Map_set gameStates playerId
                (GameState.mk playerId (Num 0) 0 (first :: rest) 0 0 0 today))).
Proof.
  unfold startGameTool. destruct response as [results|]; [|left; auto].
  destruct results as [|r results]; [left; auto|].
  right. destruct (buildQuestions draw (r :: results)) as [|first rest] eqn:E.
  - discriminate.
  - exists (r :: results), first, rest. auto.
Qed.

(** A call only ever sets the session of the player it names. *)
Lemma after_sets_own_player gameStates call :
  after gameStates call = gameStates
  \/ exists playerId gameState,
       playerOf call = Some playerId
       /\ after gameStates call = Map_set gameStates playerId gameState.
Proof.
  destruct call as [draw today response playerId count | playerId answer
                   | pick draw playerId | playerId | | playerId]; simpl.
  - destruct (start_outcomes draw today response playerId count gameStates)
      as [[E _]|[results [first [rest [_ [_ E]]]]]]; rewrite E; simpl; eauto.
  - destruct (Map_get gameStates playerId) as [gameState|] eqn:Hget.
    2:{ left. now rewrite answer_no_session. }
    destruct (index (GameState.questions gameState)
                (GameState.currentQuestionIndex gameState)) as [q|] eqn:Hidx.
    2:{ left. now rewrite (answer_no_question _ _ _ _ Hget Hidx). }
    destruct (answer_awaiting _ _ answer _ _ (conj Hget Hidx)) as [out [E _]].
    right. rewrite E. simpl. eauto.
  - destruct (Map_get gameStates playerId) as [gameState|] eqn:Hget.
    2:{ left. now rewrite hint_no_session. }
    destruct (hint_outcomes _ _ _ Hget pick draw)
      as [[_ E]|[[_ [out [E _]]]|[_ [out [E _]]]]]; rewrite E; simpl; eauto.
  - destruct (Map_get gameStates playerId) as [gameState|] eqn:Hget.
    2:{ left. now rewrite skip_no_session. }
    destruct (Z.le_gt_cases 2 (GameState.skipsUsed gameState)) as [Hs|Hs].
    + left. now rewrite (skip_exhausted _ _ _ Hget Hs).
    + right. rewrite (skip_commits _ _ _ Hget) by lia. eauto.
  - now left.
  - left. unfold getGameStatsTool. destruct (Map_get gameStates playerId); reflexivity.
Qed.

Lemma Map_get_set_cases {V : Type} (m : Map V) (k k' : string) (v v' : V) :
  Map_get (Map_set m k v) k' = Some v' ->
  (k' = k /\ v' = v) \/ (k' <> k /\ Map_get m k' = Some v').
Proof.
  destruct (String.eqb_spec k' k) as [->|Hne].
  - rewrite Map_get_set_same. intros [= <-]. auto.
  - rewrite Map_get_set_other by exact Hne. auto.
Qed.

Lemma after_origin gameStates call playerId gameState' :
  Map_get (after gameStates call) playerId = Some gameState' ->
  origin gameStates call playerId gameState'.
Proof.
  destruct call as [draw today response p count | p answer
                   | pick draw p | p | | p]; simpl.
  - destruct (start_outcomes draw today response p count gameStates)
      as [[E _]|[results [first [rest [Hr [Hb E]]]]]]; rewrite E; simpl.
    + apply Untouched.
    + intros H. apply Map_get_set_cases in H. destruct H as [[-> ->]|[_ H]].
      * subst response. eapply Started; [reflexivity| |now rewrite Hb].
        rewrite Hb. discriminate.
      * now apply Untouched.
  - destruct (Map_get gameStates p) as [gameState|] eqn:Hget.
    2:{ rewrite answer_no_session by exact Hget. apply Untouched. }
    destruct (index (GameState.questions gameState)
                (GameState.currentQuestionIndex gameState)) as [q|] eqn:Hidx.
    2:{ rewrite (answer_no_question _ _ _ _ Hget Hidx). apply Untouched. }
    destruct (answer_awaiting _ _ answer _ _ (conj Hget Hidx)) as [out [E _]].
    rewrite E. simpl. intros H. apply Map_get_set_cases in H.
    destruct H as [[-> ->]|[_ H]]; [|now apply Untouched].
    eapply Answered; [reflexivity | split; eassumption | reflexivity].
  - destruct (Map_get gameStates p) as [gameState|] eqn:Hget.
    2:{ rewrite hint_no_session by exact Hget. apply Untouched. }
    destruct (index (GameState.questions gameState)
                (GameState.currentQuestionIndex gameState)) as [q|] eqn:Hidx.
    2:{ rewrite (hint_no_question _ _ _ _ _ Hget Hidx). apply Untouched. }
    destruct (Z.le_gt_cases 3 (GameState.hintsUsed gameState)) as [Hh|Hh].
    { rewrite (hint_exhausted _ _ _ _ _ _ (conj Hget Hidx) Hh). apply Untouched. }
    destruct (hint_granted _ _ pick draw _ _ (conj Hget Hidx)) as [out [E _]]; [lia|].
    rewrite E. simpl. intros H. apply Map_get_set_cases in H.
    destruct H as [[-> ->]|[_ H]]; [|now apply Untouched].
    eapply Hinted; [reflexivity | split; eassumption | lia | reflexivity].
  - destruct (Map_get gameStates p) as [gameState|] eqn:Hget.
    2:{ rewrite skip_no_session by exact Hget. apply Untouched. }
    destruct (Z.le_gt_cases 2 (GameState.skipsUsed gameState)) as [Hs|Hs].
    { rewrite (skip_exhausted _ _ _ Hget Hs). apply Untouched. }
    rewrite (skip_commits _ _ _ Hget) by lia.
    intros H. apply Map_get_set_cases in H.
    destruct H as [[-> ->]|[_ H]]; [|now apply Untouched].
    eapply SkippedOver; [reflexivity | eassumption | lia | reflexivity].
  - apply Untouched.
  - unfold getGameStatsTool. destruct (Map_get gameStates p); apply Untouched.
Qed.

(** Induction over the sessions that sequences of permitted calls produce. *)
Lemma sessions_ind (permitted : Call -> Prop) (P : string -> GameState.t -> Prop) :
  (forall draw today results playerId questionsCount,
     permitted (StartGame draw today (Some results) playerId questionsCount) ->
     buildQuestions draw results <> [] ->
     P playerId (GameState.mk playerId (Num 0) 0 (buildQuestions draw results)
                   0 0 0 today)) ->
  (forall playerId gameState currentQuestion answer,
     P playerId gameState ->
     index (GameState.questions gameState) (GameState.currentQuestionIndex gameState)
       = Some currentQuestion ->
     P playerId (answer_state gameState currentQuestion answer)) ->
  (forall playerId gameState,
     P playerId gameState -> GameState.hintsUsed gameState < 3 ->
     P playerId (hint_state gameState)) ->
  (forall playerId gameState,
     P playerId gameState -> GameState.skipsUsed gameState < 2 ->
     P playerId (skip_state gameState)) ->
  forall calls, Forall permitted calls ->
  forall playerId gameState,
    Map_get (afterAll calls) playerId = Some gameState -> P playerId gameState.
Proof.
  intros Hstart Hanswer Hhint Hskip calls Hcalls. unfold afterAll.
  assert (Hempty : forall k gs, Map_get emptyStore k = Some gs -> P k gs)
    by (intros k gs H; discriminate).
  revert Hempty. generalize emptyStore.
  induction Hcalls as [|c calls Hc Hcalls IH]; intros st Hst k gs; simpl.
  - apply Hst.
  - apply IH. clear k gs. intros k gs Hget.
    destruct (after_origin _ _ _ _ Hget)
      as [H | draw today results count -> Hne -> | g q answer -> [Hg Hq] ->
          | g q pick draw -> [Hg Hq] Hh -> | g -> Hg Hs ->].
    + now apply Hst.
    + now apply (Hstart draw today results k count).
    + apply Hanswer; [now apply Hst | exact Hq].
    + apply Hhint; [now apply Hst | exact Hh].
    + apply Hskip; [now apply Hst | exact Hs].
Qed.

Lemma sessions_reachable_ind (P : string -> GameState.t -> Prop) :
  (forall draw today results playerId,
     buildQuestions draw results <> [] ->
     P playerId (GameState.mk playerId (Num 0) 0 (buildQuestions draw results)
                   0 0 0 today)) ->
  (forall playerId gameState currentQuestion answer,
     P playerId gameState ->
     index (GameState.questions gameState) (GameState.currentQuestionIndex gameState)
       = Some currentQuestion ->
     P playerId (answer_state gameState currentQuestion answer)) ->
  (forall playerId gameState,
     P playerId gameState -> GameState.hintsUsed gameState < 3 ->
     P playerId (hint_state gameState)) ->
  (forall playerId gameState,
     P playerId gameState -> GameState.skipsUsed gameState < 2 ->
     P playerId (skip_state gameState)) ->
  forall gameStates, reachable gameStates ->
  forall playerId gameState,
    Map_get gameStates playerId = Some gameState -> P playerId gameState.
Proof.
  intros Hstart Hanswer Hhint Hskip st [calls ->].
  apply (sessions_ind (fun _ => True) P);
    [ intros draw today results k count _ Hne; now apply Hstart
    | exact Hanswer | exact Hhint | exact Hskip
    | apply Forall_forall; auto ].
Qed.

(* ================================================================== *)
(** ** Further properties: starting a game *)
(* ================================================================== *)

Lemma mapi_from_length {A B : Type} (f : A -> nat -> B) (n : nat) (l : list A) :
  List.length (mapi_from f n l) = List.length l.
Proof.
  revert n. induction l as [|x tl IH]; intros n; simpl; [reflexivity|].
  now rewrite IH.
Qed.

Lemma nth_error_mapi_from {A B : Type} (f : A -> nat -> B) (n i : nat) (l : list A) :
  nth_error (mapi_from f n l) i
  = option_map (fun x => f x (n + i)%nat) (nth_error l i).
Proof.
  revert n i. induction l as [|x tl IH]; intros n [|i]; simpl; try reflexivity.
  - now rewrite Nat.add_0_r.
  - rewrite IH. now rewrite Nat.add_succ_r.
Qed.

Lemma Map_set_length {V : Type} (m : Map V) (k : string) (v : V) :
  List.length (Map_set m k v)
  = match Map_get m k with
    | Some _ => List.length m
    | None => S (List.length m)
    end.
Proof.
  induction m as [|[k0 v0] tl IH]; simpl; [reflexivity|].
  destruct (String.eqb k0 k); simpl; [reflexivity|].
  rewrite IH. destruct (Map_get tl k); reflexivity.
Qed.

(** X5.  Without questions from the provider (the request failed, or the
    result list is empty) no game starts: the tool reports failure with
    zero questions and the registry, a running game of the player
    included, stays as it was. *)
Theorem X5_start_without_questions
    (draw : nat -> nat -> nat) (today : string)
    (response : option (list FetchQuestion.t))
    (playerId : string) (questionsCount : option Z) (gameStates : Store)
    (Hresponse : response = None \/ response = Some []) :
  startGameTool draw today response playerId questionsCount gameStates
  = (StartOutput.mk false StartFailed None 0, gameStates).
Proof. destruct Hresponse as [-> | ->]; reflexivity. Qed.

Lemma X5_start_without_questions_witness :
  startGameTool keepOrder "2026-01-02" (Some []) "p1" (Some 5) spentGame
  = (StartOutput.mk false StartFailed None 0, spentGame).
Proof. apply X5_start_without_questions. right. reflexivity. Defined.

(** X6.  With a non-empty result list the tool succeeds: it reports as
    many questions as the provider sent and shows the first one as question
    1; the player's session is replaced by a fresh one (score 0, index 0,
    streak 0, no hints or skips used, today's date) whatever it held before;
    every other player keeps their session, and the registry grows by one
    exactly when the player had none. *)
Theorem X6_start_stores_fresh_session
    (draw : nat -> nat -> nat) (today : string) (results : list FetchQuestion.t)
    (playerId : string) (questionsCount : option Z) (gameStates : Store)
    (Hresults : results <> []) :
  exists out gameStates' first,
    startGameTool draw today (Some results) playerId questionsCount gameStates
      = (out, gameStates')
    /\ StartOutput.success out = true
    /\ StartOutput.message out
       = Welcome (match questionsCount with Some n => n | None => 10 end)
    /\ StartOutput.totalQuestions out = Z.of_nat (List.length results)
    /\ nth_error (buildQuestions draw results) 0 = Some first
    /\ StartOutput.currentQuestion out = Some (view 1 first)
    /\ Map_get gameStates' playerId
       = Some (GameState.mk playerId (Num 0) 0 (buildQuestions draw results)
                 0 0 0 today)
    /\ (forall other, other <> playerId ->
          Map_get gameStates' other = Map_get gameStates other)
    /\ Map_size gameStates'
       = match Map_get gameStates playerId with
         | Some _ => Map_size gameStates
         | None => Map_size gameStates + 1
         end.
Proof.
  destruct (start_outcomes draw today (Some results) playerId questionsCount gameStates)
    as [[_ [E|E]]|[results' [first [rest [Hr [Hb E]]]]]].
  - discriminate.
  - congruence.
  - injection Hr as <-. rewrite E. eexists. eexists. exists first.
    split; [reflexivity|]. cbn [StartOutput.success StartOutput.message
      StartOutput.totalQuestions StartOutput.currentQuestion].
    split; [reflexivity|]. split; [reflexivity|]. split.
    { rewrite <- Hb. unfold buildQuestions, array_length.
      now rewrite mapi_from_length. }
    rewrite Hb. split; [reflexivity|]. split; [reflexivity|].
    split; [apply Map_get_set_same|]. split.
    + intros other Hother. now apply Map_get_set_other.
    + unfold Map_size, array_length. rewrite Map_set_length.
      destruct (Map_get gameStates playerId); lia.
Qed.

(** Restarting the spent game restores the allowances. *)
Lemma X6_start_stores_fresh_session_witness :
  exists out gameStates' gameState,
    startGameTool keepOrder "2026-01-02" (Some capitals) "p1" None spentGame
      = (out, gameStates')
    /\ StartOutput.totalQuestions out = 3
    /\ Map_get gameStates' "p1" = Some gameState
    /\ GameState.hintsUsed gameState = 0
    /\ GameState.skipsUsed gameState = 0
    /\ GameState.currentQuestionIndex gameState = 0
    /\ Map_size gameStates' = 1.
Proof.
  destruct (X6_start_stores_fresh_session keepOrder "2026-01-02" capitals "p1" None
              spentGame ltac:(discriminate))
    as [out [gameStates' [first [E [_ [_ [Ht [_ [_ [Hg [_ Hsize]]]]]]]]]]].
  exists out, gameStates'. eexists.
  split; [exact E|]. split; [exact Ht|]. split; [exact Hg|].
  repeat split. exact Hsize.
Defined.

(** X7.  Question [i] of a new game is built from record [i] of the
    provider: it is numbered [q-(i+1)], keeps the provider's difficulty
    undecoded, has the decoded correct answer, and its options are a
    rearrangement of the decoded incorrect answers and the decoded correct
    answer, so the correct answer is always among them; it starts
    unanswered.  The game has one question per record. *)
Theorem X7_built_question
    (draw : nat -> nat -> nat) (results : list FetchQuestion.t)
    (i : nat) (record : FetchQuestion.t)
    (Hdraw : inRange (draw i))
    (Hrecord : nth_error results i = Some record) :
  List.length (buildQuestions draw results) = List.length results
  /\ exists q,
       nth_error (buildQuestions draw results) i = Some q
       /\ Question.id q = String.append "q-" (decimal (i + 1))
       /\ Question.difficulty q = FetchQuestion.difficulty record
       /\ Question.category q = decodeHtml (FetchQuestion.category record)
       /\ Question.question q = decodeHtml (FetchQuestion.question record)
       /\ Question.correct q = decodeHtml (FetchQuestion.correct_answer record)
       /\ Permutation (Question.options q)
            (List.map decodeHtml (FetchQuestion.incorrect_answers record)
               ++ [decodeHtml (FetchQuestion.correct_answer record)])
       /\ In (Question.correct q) (Question.options q)
       /\ List.length (Question.options q)
          = S (List.length (FetchQuestion.incorrect_answers record))
       /\ Question.answered q = false
       /\ Question.userAnswer q = None.
Proof.
  split; [apply mapi_from_length|].
  unfold buildQuestions. rewrite nth_error_mapi_from, Hrecord. simpl.
  eexists. split; [reflexivity|]. simpl.
  pose proof (shuffleArray_perm (draw i)
                (List.map decodeHtml (FetchQuestion.incorrect_answers record)
                   ++ [decodeHtml (FetchQuestion.correct_answer record)])) as Hperm.
  repeat split; try reflexivity.
  - exact Hperm.
  - eapply Permutation_in; [symmetry; exact Hperm|].
    apply in_or_app. right. now left.
  - rewrite (Permutation_length Hperm), List.length_app, List.length_map. simpl. lia.
Qed.

Lemma X7_built_question_witness :
  exists q,
    nth_error (buildQuestions keepOrder capitals) 1 = Some q
    /\ Question.id q = "q-2"
    /\ Question.correct q = "Lima"
    /\ In (Question.correct q) (Question.options q).
Proof.
  destruct (X7_built_question keepOrder capitals 1
              (provided "medium" "Lima" ["Quito"; "Bogota"; "Sucre"])
              ltac:(intros i; apply Nat.le_refl) eq_refl)
    as [_ [q [Hq [Hid [_ [_ [_ [Hc [_ [Hin _]]]]]]]]]].
  exists q. repeat split; assumption.
Defined.

(* ================================================================== *)
(** ** Further properties: what every stored session satisfies *)
(* ================================================================== *)

Lemma Forall_always {A : Type} (l : list A) : Forall (fun _ => True) l.
Proof. apply Forall_forall. auto. Qed.

Lemma buildQuestions_Forall (P : Question.t -> Prop) draw results :
  (forall record i,
     P (Question.mk (String.append "q-" (decimal (i + 1)))
          (decodeHtml (FetchQuestion.category record))
          (FetchQuestion.difficulty record)
          (decodeHtml (FetchQuestion.question record))
          (shuffleArray (draw i)
             (List.map decodeHtml (FetchQuestion.incorrect_answers record)
                ++ [decodeHtml (FetchQuestion.correct_answer record)]))
          (decodeHtml (FetchQuestion.correct_answer record)) false None)) ->
  Forall P (buildQuestions draw results).
Proof.
  intros H. unfold buildQuestions.
  eapply mapi_from_Forall with (P := fun _ => True); [|apply Forall_always].
  intros record i _. apply H.
Qed.

(** X8.  In every session that calls with possible draws produce, each
    question has its correct answer among its options. *)
Theorem X8_correct_answer_among_options
    (calls : list Call) (playerId : string) (gameState : GameState.t)
    (q : Question.t)
    (Hcalls : Forall validCall calls)
    (Hget : Map_get (afterAll calls) playerId = Some gameState)
    (Hq : In q (GameState.questions gameState)) :
  In (Question.correct q) (Question.options q).
Proof.
  revert q Hq. apply Forall_forall. revert playerId gameState Hget.
  apply (sessions_ind validCall
           (fun _ gs => Forall (fun q => In (Question.correct q) (Question.options q))
                          (GameState.questions gs))); [| | | |exact Hcalls].
  - intros draw today results p count _ _. simpl.
    apply buildQuestions_Forall. intros record i. simpl.
    eapply Permutation_in; [symmetry; apply shuffleArray_perm|].
    apply in_or_app. right. now left.
  - intros p gs cq answer Hgs Hidx. simpl.
    apply assign_Forall; [exact Hgs|].
    exact (index_Forall _ _ _ _ Hgs Hidx).
  - intros p gs Hgs _. exact Hgs.
  - intros p gs Hgs _. exact Hgs.
Qed.

Lemma X8_correct_answer_among_options_witness :
  In "Lima" ["Quito"; "Bogota"; "Sucre"; "Lima"].
Proof.
  assert (Hvalid : Forall validCall [start capitals "p1"; AnswerQuestion "p1" "D"]).
  { constructor; [intros index i; apply Nat.le_refl|].
    constructor; [exact I | constructor]. }
  destruct (Map_get (afterAll [start capitals "p1"; AnswerQuestion "p1" "D"]) "p1")
    as [gameState|] eqn:Hget; [|discriminate].
  pose proof (X8_correct_answer_among_options _ "p1" gameState
                (Question.mk "q-2" "Geography" "medium" "Which one?"
                   ["Quito"; "Bogota"; "Sucre"; "Lima"] "Lima" false None)
                Hvalid Hget) as H.
  apply H. vm_compute in Hget. injection Hget as <-. simpl. auto.
Defined.

Lemma In_Map_get {V : Type} (m : Map V) (k : string) (v : V) :
  NoDup (List.map fst m) -> In (k, v) m -> Map_get m k = Some v.
Proof.
  induction m as [|[k0 v0] tl IH]; simpl; intros Hnd Hin; [contradiction|].
  inversion Hnd as [|? ? Hnotin Htl]; subst.
  destruct Hin as [[= -> ->]|Hin].
  - now rewrite String.eqb_refl.
  - destruct (String.eqb_spec k0 k) as [->|Hne]; [|now apply IH].
    exfalso. apply Hnotin. change k with (fst (k, v)). now apply in_map.
Qed.

(** X9.  A reachable registry holds every player once, and each session
    under the key of the player it names: its length is the number of
    players, and the id the leaderboard shows is the session's own. *)
Theorem X9_one_session_per_player (gameStates : Store)
    (Hreach : reachable gameStates) :
  NoDup (List.map fst gameStates)
  /\ (forall playerId gameState,
        In (playerId, gameState) gameStates ->
        Map_get gameStates playerId = Some gameState
        /\ GameState.playerId gameState = playerId).
Proof.
  pose proof (reachable_keys_unique _ Hreach) as Hnd. split; [exact Hnd|].
  intros p gs Hin. pose proof (In_Map_get _ _ _ Hnd Hin) as Hget.
  split; [exact Hget|]. clear Hin. revert p gs Hget.
  apply (sessions_reachable_ind (fun p gs => GameState.playerId gs = p));
    try exact Hreach; auto.
Qed.

Lemma X9_one_session_per_player_witness :
  NoDup (List.map fst threePlayers)
  /\ List.map fst threePlayers = ["ann"; "bob"; "cy"].
Proof.
  split; [|reflexivity].
  apply (X9_one_session_per_player threePlayers). eexists. reflexivity.
Defined.

(** X10.  A call leaves the session of every player it does not name as it
    was, and so does the leaderboard call for all players. *)
Theorem X10_other_players_untouched
    (gameStates : Store) (call : Call) (other : string)
    (Hother : playerOf call <> Some other) :
  Map_get (after gameStates call) other = Map_get gameStates other.
Proof.
  destruct (after_sets_own_player gameStates call) as [->|[p [gs [Hp ->]]]];
    [reflexivity|].
  apply Map_get_set_other. congruence.
Qed.

Lemma X10_other_players_untouched_witness :
  Map_get (after threePlayers (SkipQuestion "bob")) "cy" = Map_get threePlayers "cy".
Proof. apply X10_other_players_untouched. discriminate. Defined.

Lemma assign_same {A : Type} (l : list A) (n : nat) (x : A) :
  nth_error l n = Some x -> assign l n x = l.
Proof.
  revert n. induction l as [|y tl IH]; intros [|n]; simpl; intros H;
    try discriminate.
  - congruence.
  - now rewrite IH.
Qed.

Lemma index_nth_error {A : Type} (l : list A) (i : Z) (x : A) :
  index l i = Some x -> nth_error l (Z.to_nat i) = Some x.
Proof. unfold index. destruct (i <? 0); [discriminate | auto]. Qed.

Lemma asLoaded_answer_state gameState currentQuestion answer :
  index (GameState.questions gameState) (GameState.currentQuestionIndex gameState)
    = Some currentQuestion ->
  List.map asLoaded (GameState.questions (answer_state gameState currentQuestion answer))
  = List.map asLoaded (GameState.questions gameState).
Proof.
  intros Hidx. simpl. rewrite assign_map.
  change (asLoaded (Question.record_answer currentQuestion answer))
    with (asLoaded currentQuestion).
  apply assign_same. apply index_nth_error in Hidx.
  now rewrite List.nth_error_map, Hidx.
Qed.

(** X11.  Only a start gives a player new questions.  After any other call
    a session has the questions it had, in the same order, with the same
    id, category, difficulty, text, options and correct answer; only the
    answer mark and the raw answer can differ, and only after an answer:
    hints, skips and the read-only calls leave the question list as it was,
    so a skipped question is never marked answered. *)
Theorem X11_questions_are_fixed
    (gameStates : Store) (call : Call) (playerId : string)
    (gameState' : GameState.t)
    (Hcall : isStart call = false)
    (Hget : Map_get (after gameStates call) playerId = Some gameState') :
  exists gameState,
    Map_get gameStates playerId = Some gameState
    /\ List.map asLoaded (GameState.questions gameState')
       = List.map asLoaded (GameState.questions gameState)
    /\ GameState.playerId gameState' = GameState.playerId gameState
    /\ GameState.lastPlayed gameState' = GameState.lastPlayed gameState
    /\ ((forall answer, call <> AnswerQuestion playerId answer) ->
        GameState.questions gameState' = GameState.questions gameState).
Proof.
  destruct (after_origin _ _ _ _ Hget)
    as [H | draw today results count -> Hne -> | g q answer -> [Hg Hq] ->
        | g q pick draw -> [Hg Hq] Hh -> | g -> Hg Hs ->].
  - exists gameState'. auto.
  - discriminate.
  - exists g. split; [exact Hg|]. split; [now apply asLoaded_answer_state|].
    repeat split. intros Hno. now destruct (Hno answer).
  - exists g. repeat split; auto.
  - exists g. repeat split; auto.
Qed.

Lemma X11_questions_are_fixed_witness :
  exists gameState gameState',
    Map_get freshGame "p1" = Some gameState
    /\ Map_get (after freshGame (SkipQuestion "p1")) "p1" = Some gameState'
    /\ GameState.questions gameState' = GameState.questions gameState.
Proof.
  destruct (Map_get (after freshGame (SkipQuestion "p1")) "p1")
    as [gameState'|] eqn:Hget'; [|discriminate].
  destruct (X11_questions_are_fixed freshGame (SkipQuestion "p1") "p1" gameState'
              eq_refl Hget') as [gameState [Hget [_ [_ [_ Hsame]]]]].
  exists gameState, gameState'. split; [exact Hget|]. split; [reflexivity|].
  apply Hsame. discriminate.
Defined.

Lemma filter_none {A : Type} (f : A -> bool) (l : list A) :
  Forall (fun x => f x = false) l -> List.filter f l = [].
Proof.
  induction 1 as [|x tl Hx Htl IH]; simpl; [reflexivity|]. now rewrite Hx.
Qed.

Lemma filter_assign_length {A : Type} (f : A -> bool) (l : list A) (n : nat) (x y : A) :
  nth_error l n = Some y -> f y = false -> f x = true ->
  List.length (List.filter f (assign l n x)) = S (List.length (List.filter f l)).
Proof.
  revert n. induction l as [|a tl IH]; intros [|n]; simpl; intros Hn Hy Hx;
    try discriminate.
  - injection Hn as ->. now rewrite Hx, Hy.
  - destruct (f a); simpl; now rewrite (IH n).
Qed.

(** What the accounting of a session rests on. *)
Lemma session_accounting (gameStates : Store) :
  reachable gameStates ->
  forall playerId gameState,
    Map_get gameStates playerId = Some gameState ->
    GameState.currentQuestionIndex gameState
    = answeredCount gameState + GameState.skipsUsed gameState
    /\ 0 <= GameState.currentQuestionIndex gameState
       <= array_length (GameState.questions gameState) + GameState.skipsUsed gameState
    /\ (forall j q,
          GameState.currentQuestionIndex gameState <= j ->
          index (GameState.questions gameState) j = Some q ->
          Question.answered q = false)
    /\ Forall markConsistent (GameState.questions gameState)
    /\ 0 <= GameState.skipsUsed gameState
    /\ 0 <= GameState.streak gameState <= answeredCount gameState.
Proof.
  apply sessions_reachable_ind.
  - intros draw today results p Hne. unfold answeredCount. simpl.
    assert (Hfresh : Forall (fun q => Question.answered q = false
                                      /\ Question.userAnswer q = None)
                       (buildQuestions draw results)).
    { apply buildQuestions_Forall. intros. split; reflexivity. }
    rewrite filter_none by (eapply Forall_impl; [|exact Hfresh]; intros q [H _]; exact H).
    split; [reflexivity|]. split; [unfold array_length; simpl; lia|]. split.
    + intros j q _ Hq. exact (proj1 (index_Forall _ _ _ _ Hfresh Hq)).
    + split; [|unfold array_length; simpl; lia].
      eapply Forall_impl; [|exact Hfresh]. intros q [Ha Hu]. unfold markConsistent.
      rewrite Ha, Hu. split; [discriminate | congruence].
  - intros p gs cq answer [Hcount [Hrange [Hlater [Hmarks [Hskips Hstreak]]]]] Hidx.
    pose proof (index_Some_range _ _ _ Hidx) as Hr.
    pose proof (Hlater _ _ (Z.le_refl _) Hidx) as Hfresh.
    unfold answeredCount, array_length in *. simpl.
    rewrite assign_length.
    rewrite (filter_assign_length Question.answered _ _
               (Question.record_answer cq answer) cq
               (index_nth_error _ _ _ Hidx) Hfresh eq_refl).
    split; [lia|]. split; [lia|]. split.
    + intros j q Hj Hq. rewrite index_assign_other in Hq by lia.
      eapply Hlater; [|exact Hq]. lia.
    + split; [|split; [exact Hskips | destruct (isCorrect cq answer); lia]].
      apply assign_Forall; [exact Hmarks|]. unfold markConsistent. simpl.
      split; [discriminate | reflexivity].
  - intros p gs H _. exact H.
  - intros p gs [Hcount [Hrange [Hlater [Hmarks [Hskips Hstreak]]]]] Hs.
    unfold answeredCount in *. simpl. split; [lia|]. split; [lia|]. split.
    + intros j q Hj Hq. eapply Hlater; [|exact Hq]. lia.
    + split; [exact Hmarks | lia].
Qed.

(** X12.  In every reachable session the question index counts the calls
    that moved it: it is the number of answered questions plus the number
    of skips used.  It lies between 0 and the number of questions plus the
    skips used (at most two past the end); the current question and all
    later ones are unanswered with no raw answer recorded, and a question
    is marked answered exactly when a raw answer is recorded for it. *)
Theorem X12_index_accounting
    (gameStates : Store) (playerId : string) (gameState : GameState.t)
    (Hreach : reachable gameStates)
    (Hget : Map_get gameStates playerId = Some gameState) :
  GameState.currentQuestionIndex gameState
  = answeredCount gameState + GameState.skipsUsed gameState
  /\ 0 <= GameState.currentQuestionIndex gameState
     <= array_length (GameState.questions gameState) + GameState.skipsUsed gameState
  /\ GameState.currentQuestionIndex gameState
     <= array_length (GameState.questions gameState) + 2
  /\ (forall j q,
        GameState.currentQuestionIndex gameState <= j ->
        index (GameState.questions gameState) j = Some q ->
        Question.answered q = false /\ Question.userAnswer q = None)
  /\ (forall q, In q (GameState.questions gameState) -> markConsistent q).
Proof.
  destruct (session_accounting _ Hreach _ _ Hget)
    as [Hcount [Hrange [Hlater [Hmarks _]]]].
  pose proof (ok_skips _ (store_ok_get _ _ _ (reachable_ok _ Hreach) Hget)) as Hskips.
  split; [exact Hcount|]. split; [exact Hrange|]. split; [lia|]. split.
  - intros j q Hj Hq. pose proof (Hlater j q Hj Hq) as Ha. split; [exact Ha|].
    pose proof (index_Forall _ _ _ _ Hmarks Hq) as Hm. unfold markConsistent in Hm.
    destruct (Question.userAnswer q) as [raw|]; [|reflexivity].
    rewrite Ha in Hm. destruct Hm as [_ Hm].
    assert (false = true) by (apply Hm; discriminate). discriminate.
  - apply Forall_forall. exact Hmarks.
Qed.

(** In the game with three hints and two skips used the index is 2 with no
    question answered. *)
Lemma X12_index_accounting_witness :
  exists gameState,
    Map_get spentGame "p1" = Some gameState
    /\ GameState.currentQuestionIndex gameState = 2
    /\ answeredCount gameState = 0
    /\ GameState.skipsUsed gameState = 2.
Proof.
  destruct (Map_get spentGame "p1") as [gameState|] eqn:Hget; [|discriminate].
  destruct (X12_index_accounting spentGame "p1" gameState spentGame_reachable Hget)
    as [Hcount _].
  exists gameState. split; [reflexivity|].
  vm_compute in Hget. injection Hget as <-. repeat split.
Defined.

(* ================================================================== *)
(** ** Further properties: answering *)
(* ================================================================== *)

(** X13.  An accepted answer always discloses the correct answer.  On the
    last question it reports the game completed, shows no next question
    and closes its message with the score against ten times the number of
    questions; before the last it shows the following question of the
    session under its 1-based position and gives no closing summary. *)
Theorem X13_answer_shows_what_follows
    (gameStates : Store) (playerId answer : string) (gameState : GameState.t)
    (currentQuestion : Question.t)
    (Hwait : awaiting gameStates playerId gameState currentQuestion) :
  exists out gameStates',
    answerQuestionTool playerId answer gameStates = (Return out, gameStates')
    /\ AnswerOutput.correctAnswer out = Question.correct currentQuestion
    /\ ((GameState.currentQuestionIndex gameState + 1
         = array_length (GameState.questions gameState)
         /\ AnswerOutput.gameCompleted out = true
         /\ AnswerOutput.nextQuestion out = None
         /\ finalSummary (AnswerOutput.message out)
            = Some (AnswerOutput.score out,
                    array_length (GameState.questions gameState) * 10))
        \/ (GameState.currentQuestionIndex gameState + 1
            < array_length (GameState.questions gameState)
            /\ AnswerOutput.gameCompleted out = false
            /\ finalSummary (AnswerOutput.message out) = None
            /\ exists nextQ,
                 index (GameState.questions gameState)
                       (GameState.currentQuestionIndex gameState + 1) = Some nextQ
                 /\ AnswerOutput.nextQuestion out
                    = Some (view (GameState.currentQuestionIndex gameState + 2) nextQ))).
Proof.
  destruct Hwait as [Hget Hidx]. pose proof (index_Some_range _ _ _ Hidx) as Hr.
  unfold answerQuestionTool. rewrite Hget, Hidx. cbv zeta.
  unfold completed. cbn [GameState.questions GameState.currentQuestionIndex].
  rewrite array_length_assign.
  destruct (Z.leb_spec (array_length (GameState.questions gameState))
              (GameState.currentQuestionIndex gameState + 1)) as [Hlast|Hmore].
  - eexists. eexists. split; [reflexivity|]. split; [reflexivity|]. left.
    split; [lia|]. split; [reflexivity|]. split; [reflexivity|].
    cbn [AnswerOutput.message AnswerOutput.score].
    destruct (isCorrect currentQuestion answer); reflexivity.
  - rewrite index_assign_other by lia.
    destruct (index_in_range (GameState.questions gameState)
                (GameState.currentQuestionIndex gameState + 1)) as [nextQ Hn]; [lia|].
    rewrite Hn. eexists. eexists. split; [reflexivity|]. split; [reflexivity|]. right.
    split; [exact Hmore|]. split; [reflexivity|].
    cbn [AnswerOutput.message AnswerOutput.nextQuestion]. split.
    + destruct (isCorrect currentQuestion answer); reflexivity.
    + exists nextQ. split; [reflexivity|]. do 2 f_equal. lia.
Qed.

(** On the fresh three-question game the first answer shows question 2. *)
Lemma X13_answer_shows_what_follows_witness :
  exists out gameStates' view2,
    answerQuestionTool "p1" "Rome" freshGame = (Return out, gameStates')
    /\ AnswerOutput.correctAnswer out = "Paris"
    /\ AnswerOutput.gameCompleted out = false
    /\ AnswerOutput.nextQuestion out = Some view2
    /\ QuestionView.index view2 = 2.
Proof.
  destruct (Map_get freshGame "p1") as [gameState|] eqn:Hget; [|discriminate].
  vm_compute in Hget. injection Hget as Hgs.
  pose proof (X13_answer_shows_what_follows freshGame "p1" "Rome" gameState
                (Question.mk "q-1" "Geography" "easy" "Which one?"
                   ["Rome"; "Oslo"; "Bern"; "Paris"] "Paris" false None)) as H.
  rewrite <- Hgs in H.
  destruct (H (conj eq_refl eq_refl)) as [out [gameStates' [E [Hc Hcases]]]].
  destruct Hcases as [[Hlast _]|[_ [Hg [_ [nextQ [_ Hn]]]]]]; [discriminate|].
  exists out, gameStates'. eexists. split; [exact E|]. split; [exact Hc|].
  split; [exact Hg|]. split; [exact Hn|]. reflexivity.
Defined.

(** X14.  A correct answer to a question whose difficulty names no
    inherited property adds to a numeric score the base points of the
    question's difficulty (10 for "easy", 15 for "medium", 20 for "hard",
    10 for any other difficulty) and the streak bonus of the incremented
    streak, so at least 10 points; the output reports the new score, and
    the hint and skip counters stay as they were. *)
Theorem X14_correct_answer_gain
    (gameStates : Store) (playerId answer : string) (gameState : GameState.t)
    (currentQuestion : Question.t) (z : Z)
    (Hwait : awaiting gameStates playerId gameState currentQuestion)
    (Hcorrect : isCorrect currentQuestion answer = true)
    (Hplain : plainDifficulty (Question.difficulty currentQuestion))
    (Hscore : GameState.score gameState = Num z) :
  exists out gameStates' gameState' base,
    answerQuestionTool playerId answer gameStates = (Return out, gameStates')
    /\ AnswerOutput.correct out = true
    /\ Map_get gameStates' playerId = Some gameState'
    /\ (base = 10 \/ base = 15 \/ base = 20)
    /\ (Question.difficulty currentQuestion = "easy" -> base = 10)
    /\ (Question.difficulty currentQuestion = "medium" -> base = 15)
    /\ (Question.difficulty currentQuestion = "hard" -> base = 20)
    /\ (Question.difficulty currentQuestion <> "easy" ->
        Question.difficulty currentQuestion <> "medium" ->
        Question.difficulty currentQuestion <> "hard" -> base = 10)
    /\ GameState.score gameState'
       = Num (z + base + streakBonus (GameState.streak gameState + 1))
    /\ AnswerOutput.score out = GameState.score gameState'
    /\ z + 10 <= z + base + streakBonus (GameState.streak gameState + 1)
    /\ GameState.streak gameState' = GameState.streak gameState + 1
    /\ GameState.hintsUsed gameState' = GameState.hintsUsed gameState
    /\ GameState.skipsUsed gameState' = GameState.skipsUsed gameState.
Proof.
  destruct (answer_awaiting _ _ answer _ _ Hwait) as [out [E [Hc [Hs _]]]].
  pose proof (streakBonus_nonneg (GameState.streak gameState + 1)) as Hbonus.
  set (difficulty := Question.difficulty currentQuestion) in *.
  assert (Hbase : exists base,
             (base = 10 \/ base = 15 \/ base = 20)
             /\ (difficulty = "easy" -> base = 10)
             /\ (difficulty = "medium" -> base = 15)
             /\ (difficulty = "hard" -> base = 20)
             /\ (difficulty <> "easy" -> difficulty <> "medium" ->
                 difficulty <> "hard" -> base = 10)
             /\ difficultyPoints difficulty = Num base).
  { unfold plainDifficulty in Hplain.
    unfold difficultyPoints, difficultyMultiplier, multiplierTable. rewrite Hplain.
    destruct (String.eqb_spec difficulty "easy") as [He|He].
    { exists 10. rewrite He. repeat split; auto; try discriminate; congruence. }
    destruct (String.eqb_spec difficulty "medium") as [Hm|Hm].
    { exists 15. rewrite Hm. repeat split; auto; try discriminate; congruence. }
    destruct (String.eqb_spec difficulty "hard") as [Hh|Hh].
    { exists 20. rewrite Hh. repeat split; auto; try discriminate; congruence. }
    exists 10. repeat split; auto; congruence. }
  destruct Hbase as [base [Hcases [Heasy [Hmedium [Hhard [Hother Hpoints]]]]]].
  exists out, (Map_set gameStates playerId (answer_state gameState currentQuestion answer)),
    (answer_state gameState currentQuestion answer), base.
  split; [exact E|]. split; [congruence|]. split; [apply Map_get_set_same|].
  split; [exact Hcases|]. split; [exact Heasy|]. split; [exact Hmedium|].
  split; [exact Hhard|]. split; [exact Hother|].
  assert (Hnew : GameState.score (answer_state gameState currentQuestion answer)
                 = Num (z + base + streakBonus (GameState.streak gameState + 1))).
  { unfold answer_state. rewrite Hcorrect. cbn [GameState.score].
    unfold scoreGained. fold difficulty. rewrite Hpoints, Hscore. cbn [number_add].
    f_equal. lia. }
  split; [exact Hnew|]. split; [exact Hs|]. split; [lia|].
  unfold answer_state. rewrite Hcorrect. repeat split.
Qed.

(** After two correct answers (score 25, streak 2) the correct answer to
    the hard third question brings 20 points and the bonus 2 of the streak
    3: the score is 47. *)
Lemma X14_correct_answer_gain_witness :
  exists out gameStates' gameState',
    answerQuestionTool "p1" "cairo" twoCorrectLetters = (Return out, gameStates')
    /\ AnswerOutput.correct out = true
    /\ Map_get gameStates' "p1" = Some gameState'
    /\ GameState.score gameState' = Num 47
    /\ AnswerOutput.score out = Num 47
    /\ GameState.streak gameState' = 3.
Proof.
  destruct (Map_get twoCorrectLetters "p1") as [gameState|] eqn:Hget; [|discriminate].
  vm_compute in Hget. injection Hget as Hgs.
  pose proof (X14_correct_answer_gain twoCorrectLetters "p1" "cairo" gameState
                (Question.mk "q-3" "Geography" "hard" "Which one?"
                   ["Tunis"; "Rabat"; "Accra"; "Cairo"] "Cairo" false None) 25) as H.
  rewrite <- Hgs in H.
  destruct (H (conj eq_refl eq_refl) eq_refl eq_refl eq_refl)
    as [out [gameStates' [gameState' [base [E [Hc [Hg [_ [_ [_ [Hhard [_ [Hnew
       [Hout [_ [Hstreak _]]]]]]]]]]]]]]]].
  exists out, gameStates', gameState'.
  split; [exact E|]. split; [exact Hc|]. split; [exact Hg|].
  rewrite (Hhard eq_refl) in Hnew.
  split; [exact Hnew|]. split; [rewrite Hout; exact Hnew | exact Hstreak].
Defined.

(** X15.  The streak bonus is 0 for a streak below 3 and 2 for every full
    three in the streak: it is paid on each correct answer from the third
    in a row on (2 for streaks 3 to 5, 4 for 6 to 8, ...), never drops as
    the streak grows, and is 2 higher three answers later. *)
Theorem X15_streak_bonus_schedule (streak : Z) (Hstreak : 0 <= streak) :
  (streak < 3 -> streakBonus streak = 0)
  /\ (3 <= streak -> 2 <= streakBonus streak)
  /\ streakBonus (streak + 3) = streakBonus streak + 2
  /\ streakBonus streak <= streakBonus (streak + 1)
  /\ 3 * streakBonus streak <= 2 * streak.
Proof.
  unfold streakBonus, Math_floor_div.
  pose proof (Z.div_mod streak 3 ltac:(lia)) as Hdm.
  pose proof (Z.mod_pos_bound streak 3 ltac:(lia)) as Hmod.
  assert (H3 : (streak + 3) / 3 = streak / 3 + 1).
  { replace (streak + 3) with (1 * 3 + streak) by lia.
    rewrite Z.div_add_l by lia. lia. }
  assert (H1 : streak / 3 <= (streak + 1) / 3)
    by (apply Z.div_le_mono; lia).
  assert (Hsmall : streak < 3 -> streak / 3 = 0) by (intros; apply Z.div_small; lia).
  destruct (Z.leb_spec 3 streak), (Z.leb_spec 3 (streak + 3)),
    (Z.leb_spec 3 (streak + 1)); repeat split; intros; try lia.
Qed.

Lemma X15_streak_bonus_schedule_witness :
  streakBonus 2 = 0 /\ streakBonus 3 = 2 /\ streakBonus 5 = 2 /\ streakBonus 6 = 4.
Proof.
  destruct (X15_streak_bonus_schedule 2 ltac:(lia)) as [H2 _].
  destruct (X15_streak_bonus_schedule 3 ltac:(lia)) as [_ [_ [H6 _]]].
  split; [apply H2; lia|]. split; [reflexivity|]. split; [reflexivity|].
  exact H6.
Defined.

(* ================================================================== *)
(** ** Further properties: statistics *)
(* ================================================================== *)

Lemma filter_length_bound {A : Type} (f : A -> bool) (l : list A) :
  (List.length (List.filter f l) <= List.length l)%nat.
Proof.
  induction l as [|x tl IH]; simpl; [lia|]. destruct (f x); simpl; lia.
Qed.

(** The accuracy is computed in double precision.  Rounding to the nearest
    double keeps a value on its side of every integer below 2^53, which is
    what bounds the accuracy. *)
Lemma roundHalfEven_nonneg (num den : Z) :
  0 <= num -> 0 < den -> 0 <= roundHalfEven num den.
Proof.
  intros Hn Hd. unfold roundHalfEven.
  assert (0 <= num / den) by (apply Z.div_pos; lia).
  destruct (2 * (num mod den) ?= den); [destruct (Z.even _)| |]; lia.
Qed.

Lemma roundHalfEven_le (num den bound : Z) :
  0 < den -> num <= bound * den -> roundHalfEven num den <= bound.
Proof.
  intros Hd Hle. unfold roundHalfEven.
  pose proof (Z.div_mod num den ltac:(lia)) as Hdm.
  pose proof (Z.mod_pos_bound num den Hd) as Hmod.
  assert (Hf : num / den <= bound).
  { apply Z.div_le_upper_bound; lia. }
  destruct (Z.eq_dec (num / den) bound) as [E|E].
  - assert (Hr : num mod den = 0) by nia.
    assert (Hcmp : (2 * (num mod den) ?= den) = Lt)
      by (apply Z.compare_lt_iff; lia).
    rewrite Hcmp. lia.
  - destruct (2 * (num mod den) ?= den); [destruct (Z.even _)| |]; lia.
Qed.

Lemma binade_lower (a b : Z) :
  0 < a -> 0 < b -> 0 <= binade a b -> b * 2 ^ binade a b <= a.
Proof.
  intros Ha Hb. unfold binade.
  destruct (Z.leb_spec (b * 2 ^ Z.max (Z.log2 a - Z.log2 b) 0)
              (a * 2 ^ Z.max (- (Z.log2 a - Z.log2 b)) 0)) as [Hle|Hgt]; intros He.
  - rewrite Z.max_l in Hle by lia. rewrite Z.max_r in Hle by lia.
    rewrite Z.pow_0_r in Hle. lia.
  - destruct (Z.log2_spec a Ha) as [Hla _].
    destruct (Z.log2_spec b Hb) as [_ Hlb].
    pose proof (Z.log2_nonneg b) as Hnb.
    assert (Hpow : 2 ^ Z.log2 a
                   = 2 ^ (Z.log2 a - Z.log2 b - 1) * 2 ^ Z.succ (Z.log2 b)).
    { rewrite <- Z.pow_add_r by lia. f_equal. lia. }
    assert (0 < 2 ^ (Z.log2 a - Z.log2 b - 1)) by (apply Z.pow_pos_nonneg; lia).
    nia.
Qed.

Lemma nearestDouble_nonneg (a b : Z) : 0 < a -> 0 < b -> (0 <= nearestDouble a b)%Q.
Proof.
  intros Ha Hb. unfold nearestDouble, Qle. cbn [Qnum Qden].
  rewrite Z.mul_0_l, Z.mul_1_r.
  apply Z.mul_nonneg_nonneg; [|apply Z.pow_nonneg; lia].
  apply roundHalfEven_nonneg.
  - apply Z.mul_nonneg_nonneg; [lia | apply Z.pow_nonneg; lia].
  - apply Z.mul_pos_pos; [exact Hb | apply Z.pow_pos_nonneg; lia].
Qed.

Lemma nearestDouble_le_integer (a b bound : Z) :
  0 < a -> 0 < b -> 0 <= bound < 2 ^ 53 -> a <= bound * b ->
  (nearestDouble a b <= inject_Z bound)%Q.
Proof.
  intros Ha Hbpos Hb Hq. unfold nearestDouble.
  destruct (Z.le_gt_cases (binade a b) 52) as [He|He].
  - rewrite (Z.max_l (52 - binade a b) 0) by lia.
    rewrite (Z.max_r (- (52 - binade a b)) 0) by lia.
    rewrite Z.pow_0_r, !Z.mul_1_r.
    assert (Hp : 0 < 2 ^ (52 - binade a b)) by (apply Z.pow_pos_nonneg; lia).
    unfold Qle. cbn [Qnum Qden inject_Z]. rewrite Z.mul_1_r, Z2Pos.id by exact Hp.
    apply roundHalfEven_le; [exact Hbpos | nia].
  - exfalso. pose proof (binade_lower a b Ha Hbpos ltac:(lia)) as Hlow.
    assert (2 ^ 53 <= 2 ^ binade a b) by (apply Z.pow_le_mono_r; lia).
    nia.
Qed.

Lemma toDouble_nonneg (q : Q) : (0 <= q)%Q -> (0 <= toDouble q)%Q.
Proof.
  intros Hq. unfold toDouble. unfold Qle in Hq. cbn in Hq.
  destruct (Qnum q) as [|p|p] eqn:E; [apply Qle_refl | | lia].
  apply nearestDouble_nonneg; reflexivity.
Qed.

(** Rounding does not pass an integer below 2^53: those are doubles. *)
Lemma toDouble_le_integer (q : Q) (bound : Z) :
  0 <= bound < 2 ^ 53 -> (q <= inject_Z bound)%Q -> (toDouble q <= inject_Z bound)%Q.
Proof.
  intros Hb Hq. unfold toDouble.
  unfold Qle in Hq. cbn [Qnum Qden inject_Z] in Hq. rewrite Z.mul_1_r in Hq.
  destruct (Qnum q) as [|p|p] eqn:E.
  - unfold Qle. cbn. lia.
  - apply nearestDouble_le_integer; [reflexivity | reflexivity | exact Hb | exact Hq].
  - apply Qle_trans with (y := 0%Q); [|unfold Qle; cbn; lia].
    apply (Qopp_le_compat 0), nearestDouble_nonneg; reflexivity.
Qed.

Lemma accuracyOf_none (correctAnswers : Z) : accuracyOf correctAnswers 0 = 0.
Proof. reflexivity. Qed.

Lemma accuracyOf_bounds (correctAnswers answered : Z) :
  0 <= correctAnswers <= answered -> 0 <= accuracyOf correctAnswers answered <= 100.
Proof.
  intros Hc. unfold accuracyOf, Math_round.
  destruct (Z.ltb_spec 0 answered) as [Hn|Hn]; [|cbn; lia].
  set (quotient := toDouble (inject_Z correctAnswers / inject_Z answered)).
  set (accuracy := toDouble (quotient * inject_Z 100)).
  assert (Hq0 : (0 <= quotient)%Q).
  { apply toDouble_nonneg. apply Qle_shift_div_l; [unfold Qlt; cbn; lia|].
    rewrite Qmult_0_l. unfold Qle. cbn. lia. }
  assert (Hq1 : (quotient <= inject_Z 1)%Q).
  { apply toDouble_le_integer; [lia|].
    apply Qle_shift_div_r; [unfold Qlt; cbn; lia|].
    rewrite <- inject_Z_mult, <- Zle_Qle. lia. }
  assert (Hlo : (0 <= accuracy)%Q).
  { apply toDouble_nonneg. apply Qmult_le_0_compat; [exact Hq0 | discriminate]. }
  assert (Hhi : (accuracy <= inject_Z 100)%Q).
  { apply toDouble_le_integer; [lia|].
    setoid_replace (inject_Z 100) with (inject_Z 1 * inject_Z 100)%Q by reflexivity.
    apply Qmult_le_compat_r; [exact Hq1 | discriminate]. }
  split.
  - change 0 with (Qfloor 0). apply Qfloor_resp_le.
    setoid_replace 0%Q with (0 + 0)%Q by reflexivity.
    apply Qplus_le_compat; [exact Hlo | discriminate].
  - change 100 with (Qfloor (inject_Z 100 + (1 # 2))). apply Qfloor_resp_le.
    apply Qplus_le_compat; [exact Hhi | apply Qle_refl].
Qed.

(** Where the double-precision product and the exact one round apart. *)
Lemma accuracyOf_rounds_the_double :
  accuracyOf 23 40 = 57 /\ Math_round (inject_Z 100 * (23 # 40)) = 58.
Proof. split; vm_compute; reflexivity. Qed.

(** X16.  The statistics call never changes the registry.  For a player
    without a session it throws "No active game found."; otherwise it
    returns the stored score, streak and counters, the index plus one as
    the position and the number of questions as the total.  The count of
    correct answers lies between 0 and the number of answered questions,
    and the accuracy between 0 and 100; it is 0 when nothing is answered. *)
Theorem X16_stats_report (gameStates : Store) (playerId : string) :
  (Map_get gameStates playerId = None ->
   getGameStatsTool playerId gameStates = (Throw noActiveGame, gameStates))
  /\ (forall gameState,
        Map_get gameStates playerId = Some gameState ->
        exists out,
          getGameStatsTool playerId gameStates = (Return out, gameStates)
          /\ StatsOutput.playerId out = playerId
          /\ StatsOutput.score out = GameState.score gameState
          /\ StatsOutput.currentQuestion out
             = GameState.currentQuestionIndex gameState + 1
          /\ StatsOutput.totalQuestions out
             = array_length (GameState.questions gameState)
          /\ StatsOutput.streak out = GameState.streak gameState
          /\ StatsOutput.hintsUsed out = GameState.hintsUsed gameState
          /\ StatsOutput.skipsUsed out = GameState.skipsUsed gameState
          /\ 0 <= StatsOutput.correctAnswers out <= answeredCount gameState
          /\ answeredCount gameState <= array_length (GameState.questions gameState)
          /\ 0 <= StatsOutput.accuracy out <= 100
          /\ (answeredCount gameState = 0 -> StatsOutput.accuracy out = 0)).
Proof.
  split.
  - intros Hnone. unfold getGameStatsTool. now rewrite Hnone.
  - intros gameState Hget. unfold getGameStatsTool. rewrite Hget. cbv zeta.
    eexists. split; [reflexivity|].
    cbn [StatsOutput.playerId StatsOutput.score StatsOutput.currentQuestion
         StatsOutput.totalQuestions StatsOutput.streak StatsOutput.hintsUsed
         StatsOutput.skipsUsed StatsOutput.correctAnswers StatsOutput.accuracy].
    repeat (split; [reflexivity|]).
    fold (answeredCount gameState).
    assert (Hcorrect : 0 <= array_length
                              (List.filter (countsAsCorrect gameState)
                                 (List.filter Question.answered
                                    (GameState.questions gameState)))
                       <= answeredCount gameState).
    { unfold answeredCount, array_length.
      pose proof (filter_length_bound (countsAsCorrect gameState)
                    (List.filter Question.answered (GameState.questions gameState))).
      lia. }
    split; [exact Hcorrect|]. split.
    { unfold answeredCount, array_length.
      pose proof (filter_length_bound Question.answered (GameState.questions gameState)).
      lia. }
    split; [now apply accuracyOf_bounds|].
    intros H0. rewrite H0. apply accuracyOf_none.
Qed.

(** The players of the three-player board: "bob" has one answer, correct. *)
Lemma X16_stats_report_witness :
  exists out,
    getGameStatsTool "bob" threePlayers = (Return out, threePlayers)
    /\ StatsOutput.currentQuestion out = 2
    /\ StatsOutput.totalQuestions out = 3
    /\ StatsOutput.accuracy out = 100
    /\ getGameStatsTool "dan" threePlayers = (Throw noActiveGame, threePlayers).
Proof.
  destruct (X16_stats_report threePlayers "bob") as [_ Hsome].
  destruct (X16_stats_report threePlayers "dan") as [Hnone _].
  destruct (Map_get threePlayers "bob") as [gameState|] eqn:Hget; [|discriminate].
  destruct (Hsome gameState eq_refl) as [out [E [_ [_ [Hq [Ht _]]]]]].
  exists out. split; [exact E|].
  vm_compute in Hget. injection Hget as <-.
  split; [exact Hq|]. split; [exact Ht|]. split.
  - vm_compute in E. injection E as <-. reflexivity.
  - apply Hnone. reflexivity.
Defined.

(** The statistics and the submission judge a raw answer alike when it has
    no white space around it, is not empty and is not a single letter. *)
Lemma countsAsCorrect_plain_text gameState q raw :
  Question.userAnswer q = Some raw ->
  raw <> "" -> trim raw = raw -> test_A_D (toUpperCase raw) = false ->
  countsAsCorrect gameState q = isCorrect q raw.
Proof.
  intros Hraw Hne Htrim Hletter. unfold countsAsCorrect, isCorrect.
  rewrite Hraw, Htrim, Hletter.
  destruct (String.eqb_spec raw ""); [contradiction|].
  now rewrite Bool.andb_false_r.
Qed.

(** X17.  When every answered question of a session carries a raw answer
    that is not empty, has no white space around it and is not a single
    letter A-D in either case, the statistics count exactly the answers
    that the submission rule judges correct. *)
Theorem X17_stats_agree_on_plain_text
    (gameStates : Store) (playerId : string) (gameState : GameState.t)
    (Hget : Map_get gameStates playerId = Some gameState)
    (Hplain : forall q,
        In q (GameState.questions gameState) -> Question.answered q = true ->
        exists raw,
          Question.userAnswer q = Some raw
          /\ raw <> "" /\ trim raw = raw /\ test_A_D (toUpperCase raw) = false) :
  exists out,
    getGameStatsTool playerId gameStates = (Return out, gameStates)
    /\ StatsOutput.correctAnswers out = spec_correctAnswers gameState.
Proof.
  unfold getGameStatsTool. rewrite Hget. cbv zeta. eexists. split; [reflexivity|].
  cbn [StatsOutput.correctAnswers]. unfold spec_correctAnswers. f_equal.
  apply List.filter_ext_in. intros q Hq. apply List.filter_In in Hq.
  destruct Hq as [Hin Hans].
  destruct (Hplain q Hin Hans) as [raw [Hraw [Hne [Htrim Hletter]]]].
  rewrite (countsAsCorrect_plain_text _ _ _ Hraw Hne Htrim Hletter).
  now rewrite Hraw.
Qed.

Lemma X17_stats_agree_on_plain_text_witness :
  exists out,
    getGameStatsTool "p1" plainTextGame = (Return out, plainTextGame)
    /\ StatsOutput.correctAnswers out = 1.
Proof.
  destruct (Map_get plainTextGame "p1") as [gameState|] eqn:Hget; [|discriminate].
  assert (Hplain : forall q,
             In q (GameState.questions gameState) -> Question.answered q = true ->
             exists raw,
               Question.userAnswer q = Some raw
               /\ raw <> "" /\ trim raw = raw /\ test_A_D (toUpperCase raw) = false).
  { vm_compute in Hget. injection Hget as <-.
    intros q [<-|[<-|[<-|[]]]] Ha; try discriminate;
      eexists; (split; [reflexivity|]); (split; [discriminate|]); split; reflexivity. }
  destruct (X17_stats_agree_on_plain_text plainTextGame "p1" gameState Hget Hplain)
    as [out [E Hcount]].
  exists out. split; [exact E|]. rewrite Hcount.
  vm_compute in Hget. injection Hget as <-. reflexivity.
Defined.

(* ================================================================== *)
(** ** Further properties: the leaderboard order among equal scores *)
(* ================================================================== *)

Lemma withScore_insert (s : number) (x : Entry.t) (l : list Entry.t) :
  withScore s (insert x l) = withScore s (x :: l).
Proof.
  induction l as [|y tl IH]; [reflexivity|].
  cbn [insert]. destruct (Z.leb_spec (sortCompare x y) 0) as [Hle|Hgt]; [reflexivity|].
  unfold withScore in *. cbn [List.filter] in *. rewrite IH.
  unfold sortCompare, compareFn in Hgt.
  destruct (Entry.score x) as [a|], (Entry.score y) as [b|], s as [c|];
    cbn [number_sub] in Hgt; try lia; try reflexivity.
  destruct (Z.eqb_spec a c), (Z.eqb_spec b c); try reflexivity; lia.
Qed.

Lemma withScore_sort (s : number) (l : list Entry.t) :
  withScore s (sort l) = withScore s l.
Proof.
  induction l as [|x tl IH]; [reflexivity|].
  cbn [sort]. rewrite withScore_insert. unfold withScore in *. cbn [List.filter].
  now rewrite IH.
Qed.

(** X18.  The ranking behind the leaderboard is stable: when the stored
    scores are numbers, the players that share a score appear in the order
    in which they were first registered. *)
Theorem X18_leaderboard_ties_keep_order (gameStates : Store)
    (Hnumeric : Forall (fun kv => numeric (GameState.score (snd kv))) gameStates) :
  exists ranking,
    LeaderboardOutput.leaderboard (fst (getLeaderboardTool gameStates))
    = List.firstn 10 ranking
    /\ Permutation ranking (List.map toEntry gameStates)
    /\ StronglySorted score_ge ranking
    /\ forall s, withScore s ranking = withScore s (List.map toEntry gameStates).
Proof.
  exists (sort (List.map toEntry gameStates)).
  split; [reflexivity|]. split; [apply sort_perm|].
  split; [apply sort_sorted, toEntry_numeric, Hnumeric|].
  intros s. apply withScore_sort.
Qed.

(** "zoe" and "abe" are tied at 0 and stay in that order behind "kim". *)
Lemma X18_leaderboard_ties_keep_order_witness :
  List.map Entry.playerId
    (LeaderboardOutput.leaderboard (fst (getLeaderboardTool tiedPlayers)))
  = ["kim"; "zoe"; "abe"]
  /\ exists ranking,
       Permutation ranking (List.map toEntry tiedPlayers)
       /\ List.map Entry.playerId (withScore (Num 0) ranking) = ["zoe"; "abe"].
Proof.
  split; [reflexivity|].
  destruct (X18_leaderboard_ties_keep_order tiedPlayers) as [ranking [_ [Hp [_ Hties]]]].
  { repeat constructor; discriminate. }
  exists ranking. split; [exact Hp|]. rewrite Hties. reflexivity.
Defined.

(* ================================================================== *)
(** ** Further properties: a game played to its end *)
(* ================================================================== *)

Lemma afterAnswers_reachable playerId answers gameStates :
  reachable gameStates -> reachable (afterAnswers playerId answers gameStates).
Proof.
  revert gameStates. unfold afterAnswers.
  induction answers as [|a answers IH]; intros st Hst; cbn [List.fold_left];
    [exact Hst|].
  apply IH. now apply reachable_after.
Qed.

(** Answers are accepted one after the other as long as questions are left. *)
Lemma afterAnswers_progress playerId answers :
  forall gameStates gameState,
    Map_get gameStates playerId = Some gameState ->
    0 <= GameState.currentQuestionIndex gameState ->
    GameState.currentQuestionIndex gameState + Z.of_nat (List.length answers)
      <= array_length (GameState.questions gameState) ->
    exists gameState',
      Map_get (afterAnswers playerId answers gameStates) playerId = Some gameState'
      /\ GameState.currentQuestionIndex gameState'
         = GameState.currentQuestionIndex gameState + Z.of_nat (List.length answers)
      /\ array_length (GameState.questions gameState')
         = array_length (GameState.questions gameState)
      /\ GameState.hintsUsed gameState' = GameState.hintsUsed gameState
      /\ GameState.skipsUsed gameState' = GameState.skipsUsed gameState.
Proof.
  induction answers as [|a answers IH]; intros st gs Hget Hi Hroom.
  - exists gs. simpl. repeat split; auto. lia.
  - cbn [List.length] in Hroom.
    destruct (index_in_range (GameState.questions gs)
                (GameState.currentQuestionIndex gs)) as [q Hq]; [lia|].
    destruct (answer_awaiting _ _ a _ _ (conj Hget Hq)) as [out [E _]].
    destruct (IH (Map_set st playerId (answer_state gs q a)) (answer_state gs q a))
      as [gs' [Hget' [Hidx [Hlen [Hh Hs]]]]].
    + apply Map_get_set_same.
    + simpl. lia.
    + simpl. rewrite array_length_assign. lia.
    + exists gs'. unfold afterAnswers in *. cbn [List.fold_left after]. rewrite E.
      cbn [snd]. split; [exact Hget'|]. simpl in Hidx, Hlen, Hh, Hs.
      rewrite array_length_assign in Hlen. cbn [List.length].
      repeat split; auto. lia.
Qed.

Lemma filter_all {A : Type} (f : A -> bool) (l : list A) :
  List.length (List.filter f l) = List.length l -> Forall (fun x => f x = true) l.
Proof.
  induction l as [|x tl IH]; simpl; intros H; [constructor|].
  pose proof (filter_length_bound f tl).
  destruct (f x) eqn:E; simpl in H; [|lia].
  constructor; [exact E | apply IH; lia].
Qed.

(** X19.  A game started with n questions takes exactly n answers: given
    one after the other, whatever they are, all n are accepted, leave every
    question answered and the index at n with no hint or skip used, and the
    session completed; any further answer throws "No current question
    found." and changes nothing. *)
Theorem X19_game_takes_one_answer_per_question
    (draw : nat -> nat -> nat) (today : string) (results : list FetchQuestion.t)
    (playerId : string) (questionsCount : option Z) (gameStates : Store)
    (answers : list string)
    (Hreach : reachable gameStates)
    (Hresults : results <> [])
    (Hanswers : List.length answers = List.length results) :
  exists gameState,
    Map_get (afterAnswers playerId answers
               (after gameStates
                  (StartGame draw today (Some results) playerId questionsCount)))
            playerId = Some gameState
    /\ GameState.currentQuestionIndex gameState = Z.of_nat (List.length results)
    /\ array_length (GameState.questions gameState) = Z.of_nat (List.length results)
    /\ completed gameState = true
    /\ GameState.hintsUsed gameState = 0
    /\ GameState.skipsUsed gameState = 0
    /\ (forall q, In q (GameState.questions gameState) -> Question.answered q = true)
    /\ (forall answer,
          answerQuestionTool playerId answer
            (afterAnswers playerId answers
               (after gameStates
                  (StartGame draw today (Some results) playerId questionsCount)))
          = (Throw noCurrentQuestion,
             afterAnswers playerId answers
               (after gameStates
                  (StartGame draw today (Some results) playerId questionsCount)))).
Proof.
  set (started := after gameStates
                    (StartGame draw today (Some results) playerId questionsCount)).
  assert (Hstarted : Map_get started playerId
                     = Some (GameState.mk playerId (Num 0) 0
                               (buildQuestions draw results) 0 0 0 today)).
  { unfold started. cbn [after].
    destruct (start_outcomes draw today (Some results) playerId questionsCount gameStates)
      as [[_ [E|E]]|[results' [first [rest [Hr [Hb E]]]]]];
      [discriminate | congruence |].
    injection Hr as <-. rewrite E. cbn [snd]. rewrite Hb. apply Map_get_set_same. }
  assert (Hlen : array_length (buildQuestions draw results)
                 = Z.of_nat (List.length results)).
  { unfold array_length, buildQuestions. now rewrite mapi_from_length. }
  destruct (afterAnswers_progress playerId answers started _ Hstarted)
    as [gs [Hget [Hidx [Hl [Hh Hs]]]]].
  { simpl. lia. }
  { simpl. rewrite Hlen, Hanswers. lia. }
  simpl in Hidx, Hl, Hh, Hs. rewrite Hlen in Hl. rewrite Hanswers in Hidx.
  assert (Hplayed : reachable (afterAnswers playerId answers started)).
  { apply afterAnswers_reachable. unfold started. now apply reachable_after. }
  destruct (session_accounting _ Hplayed _ _ Hget) as [Hcount _].
  exists gs. split; [exact Hget|]. split; [exact Hidx|]. split; [exact Hl|].
  split; [unfold completed; apply Z.leb_le; lia|].
  split; [exact Hh|]. split; [exact Hs|]. split.
  - apply Forall_forall. apply filter_all.
    unfold answeredCount, array_length in *. lia.
  - intros answer. apply answer_no_question with (gameState := gs); [exact Hget|].
    destruct (index (GameState.questions gs) (GameState.currentQuestionIndex gs))
      as [q|] eqn:Hq; [|reflexivity].
    apply index_Some_range in Hq. lia.
Qed.

Lemma X19_game_takes_one_answer_per_question_witness :
  exists gameState,
    Map_get (afterAnswers "p1" ["D"; "lima"; "Tunis"] freshGame) "p1" = Some gameState
    /\ GameState.currentQuestionIndex gameState = 3
    /\ completed gameState = true
    /\ answerQuestionTool "p1" "A" (afterAnswers "p1" ["D"; "lima"; "Tunis"] freshGame)
       = (Throw noCurrentQuestion, afterAnswers "p1" ["D"; "lima"; "Tunis"] freshGame).
Proof.
  destruct (X19_game_takes_one_answer_per_question keepOrder "2026-01-01" capitals
              "p1" None emptyStore ["D"; "lima"; "Tunis"])
    as [gameState [Hget [Hidx [_ [Hdone [_ [_ [_ Hnext]]]]]]]].
  - exists []. reflexivity.
  - discriminate.
  - reflexivity.
  - exists gameState. split; [exact Hget|]. split; [exact Hidx|].
    split; [exact Hdone|]. exact (Hnext "A").
Defined.

(* ================================================================== *)
(** ** Further properties: hints *)
(* ================================================================== *)

Lemma perm_pair_same {A : Type} (c : A) (l : list A) :
  Permutation l [c; c] -> l = [c; c].
Proof.
  intros H. pose proof (Permutation_length H) as Hlen.
  assert (Hall : forall x, In x l -> x = c).
  { intros x Hx. apply (Permutation_in _ H) in Hx. simpl in Hx.
    destruct Hx as [E|[E|[]]]; now symmetry. }
  destruct l as [|a [|b [|d l]]]; try discriminate.
  rewrite (Hall a), (Hall b); simpl; auto.
Qed.

(** X20.  A granted hint returns two options, the correct answer among
    them.  When the question has an option other than the correct answer,
    the second one is such an option of the question; when it has none,
    the correct answer is shown twice.  The hint reports one more hint used
    and a penalty of 2, and keeps the questions, the index, the streak and
    the skips as they were. *)
Theorem X20_hint_keeps_correct_answer
    (gameStates : Store) (playerId : string) (gameState : GameState.t)
    (currentQuestion : Question.t) (pick : nat) (draw : nat -> nat)
    (Hwait : awaiting gameStates playerId gameState currentQuestion)
    (Hhints : GameState.hintsUsed gameState < 3)
    (Hdraw : inRange draw)
    (Hpick : (pick < List.length
                (List.filter
                   (fun opt => negb (String.eqb opt (Question.correct currentQuestion)))
                   (Question.options currentQuestion)))%nat
             \/ List.filter
                  (fun opt => negb (String.eqb opt (Question.correct currentQuestion)))
                  (Question.options currentQuestion) = []) :
  exists out gameStates' gameState',
    getHintTool pick draw playerId gameStates = (Return out, gameStates')
    /\ HintOutput.success out = true
    /\ HintOutput.hintsUsed out = GameState.hintsUsed gameState + 1
    /\ HintOutput.scorePenalty out = 2
    /\ List.length (HintOutput.remainingOptions out) = 2%nat
    /\ In (Question.correct currentQuestion) (HintOutput.remainingOptions out)
    /\ ((exists wrong,
           In wrong (Question.options currentQuestion)
           /\ wrong <> Question.correct currentQuestion
           /\ Permutation (HintOutput.remainingOptions out)
                [Question.correct currentQuestion; wrong])
        \/ ((forall opt, In opt (Question.options currentQuestion) ->
               opt = Question.correct currentQuestion)
            /\ HintOutput.remainingOptions out
               = [Question.correct currentQuestion; Question.correct currentQuestion]))
    /\ Map_get gameStates' playerId = Some gameState'
    /\ GameState.questions gameState' = GameState.questions gameState
    /\ GameState.currentQuestionIndex gameState'
       = GameState.currentQuestionIndex gameState
    /\ GameState.streak gameState' = GameState.streak gameState
    /\ GameState.skipsUsed gameState' = GameState.skipsUsed gameState.
Proof.
  destruct Hwait as [Hget Hidx]. unfold getHintTool. rewrite Hget, Hidx.
  destruct (Z.leb_spec 3 (GameState.hintsUsed gameState)); [lia|]. cbv zeta.
  set (correct := Question.correct currentQuestion) in *.
  set (wrongAnswers := List.filter (fun opt => negb (String.eqb opt correct))
                         (Question.options currentQuestion)) in *.
  set (other := match wrongAnswers with
                | [] => correct
                | _ :: _ => List.nth pick wrongAnswers correct
                end).
  pose proof (shuffleArray_perm draw [correct; other]) as Hperm.
  eexists. eexists. eexists. split; [reflexivity|].
  cbn [HintOutput.success HintOutput.hintsUsed HintOutput.scorePenalty
       HintOutput.remainingOptions GameState.hintsUsed].
  split; [reflexivity|]. split; [reflexivity|]. split; [reflexivity|].
  split; [exact (Permutation_length Hperm)|].
  split; [eapply Permutation_in; [symmetry; exact Hperm | now left]|].
  split.
  - destruct wrongAnswers as [|w ws] eqn:Hw.
    + right. split.
      * intros opt Hopt.
        destruct (String.eqb_spec opt correct) as [E|E]; [exact E|].
        assert (Hin : In opt wrongAnswers).
        { apply List.filter_In. split; [exact Hopt|].
          destruct (String.eqb_spec opt correct); [contradiction | reflexivity]. }
        rewrite Hw in Hin. contradiction.
      * apply perm_pair_same. exact Hperm.
    + left. destruct Hpick as [Hpick|Hpick]; [|discriminate].
      assert (Hin : In other (w :: ws)) by (apply List.nth_In; exact Hpick).
      rewrite <- Hw in Hin. apply List.filter_In in Hin. destruct Hin as [Hopt Hne].
      exists other. split; [exact Hopt|]. split; [|exact Hperm].
      destruct (String.eqb_spec other correct); [discriminate | assumption].
  - split; [apply Map_get_set_same|]. repeat split.
Qed.

(** A hint on the first question of the fresh game, picking the second
    wrong option: Paris and Oslo remain. *)
Lemma X20_hint_keeps_correct_answer_witness :
  exists out gameStates',
    getHintTool 1 (fun i => i) "p1" freshGame = (Return out, gameStates')
    /\ HintOutput.remainingOptions out = ["Paris"; "Oslo"]
    /\ In "Paris" (HintOutput.remainingOptions out).
Proof.
  destruct (Map_get freshGame "p1") as [gameState|] eqn:Hget; [|discriminate].
  vm_compute in Hget. injection Hget as Hgs.
  pose proof (X20_hint_keeps_correct_answer freshGame "p1" gameState
                (Question.mk "q-1" "Geography" "easy" "Which one?"
                   ["Rome"; "Oslo"; "Bern"; "Paris"] "Paris" false None)
                1 (fun i => i)) as H.
  rewrite <- Hgs in H.
  destruct H as [out [gameStates' [gameState' [E [_ [_ [_ [_ [Hin _]]]]]]]]].
  - split; reflexivity.
  - simpl. lia.
  - intros i. apply Nat.le_refl.
  - left. simpl. lia.
  - exists out, gameStates'. split; [exact E|]. split; [|exact Hin].
    vm_compute in E. injection E as <- _. reflexivity.
Defined.

(* ================================================================== *)
(** ** Further properties: skipping and the streak *)
(* ================================================================== *)

(** X21.  A skip with fewer than two skips used is carried out on any
    reachable session: it reports success, one more skip used and a penalty
    of 1.  When a question is left after the skipped one it shows that
    question under its 1-based position; otherwise it shows none and its
    message gives the final score, the penalty included. *)
Theorem X21_skip_shows_what_follows
    (gameStates : Store) (playerId : string) (gameState : GameState.t)
    (Hreach : reachable gameStates)
    (Hget : Map_get gameStates playerId = Some gameState)
    (Hskips : GameState.skipsUsed gameState < 2) :
  exists out gameStates' gameState',
    skipQuestionTool playerId gameStates = (Return out, gameStates')
    /\ SkipOutput.success out = true
    /\ SkipOutput.skipsUsed out = GameState.skipsUsed gameState + 1
    /\ SkipOutput.scorePenalty out = 1
    /\ Map_get gameStates' playerId = Some gameState'
    /\ GameState.hintsUsed gameState' = GameState.hintsUsed gameState
    /\ ((GameState.currentQuestionIndex gameState + 1
         < array_length (GameState.questions gameState)
         /\ SkipOutput.message out = Skipped 1
         /\ exists nextQ,
              index (GameState.questions gameState)
                    (GameState.currentQuestionIndex gameState + 1) = Some nextQ
              /\ SkipOutput.nextQuestion out
                 = Some (view (GameState.currentQuestionIndex gameState + 2) nextQ))
        \/ (array_length (GameState.questions gameState)
            <= GameState.currentQuestionIndex gameState + 1
            /\ SkipOutput.nextQuestion out = None
            /\ SkipOutput.message out
               = SkippedCompleted (GameState.score gameState'))).
Proof.
  pose proof (ok_index _ (store_ok_get _ _ _ (reachable_ok _ Hreach) Hget)) as Hi.
  unfold skipQuestionTool. rewrite Hget.
  destruct (Z.leb_spec 2 (GameState.skipsUsed gameState)); [lia|]. cbv zeta.
  unfold completed. cbn [GameState.questions GameState.currentQuestionIndex].
  destruct (Z.leb_spec (array_length (GameState.questions gameState))
              (GameState.currentQuestionIndex gameState + 1)) as [Hlast|Hmore].
  - eexists. eexists. eexists. split; [reflexivity|].
    split; [reflexivity|]. split; [reflexivity|]. split; [reflexivity|].
    split; [apply Map_get_set_same|]. split; [reflexivity|]. right.
    split; [exact Hlast|]. split; reflexivity.
  - destruct (index_in_range (GameState.questions gameState)
                (GameState.currentQuestionIndex gameState + 1)) as [nextQ Hn]; [lia|].
    rewrite Hn. eexists. eexists. eexists. split; [reflexivity|].
    split; [reflexivity|]. split; [reflexivity|]. split; [reflexivity|].
    split; [apply Map_get_set_same|]. split; [reflexivity|]. left.
    split; [exact Hmore|]. split; [reflexivity|].
    exists nextQ. split; [reflexivity|].
    cbn [SkipOutput.nextQuestion]. do 2 f_equal. lia.
Qed.

Lemma X21_skip_shows_what_follows_witness :
  exists out gameStates' shown,
    skipQuestionTool "p1" freshGame = (Return out, gameStates')
    /\ SkipOutput.success out = true
    /\ SkipOutput.nextQuestion out = Some shown
    /\ QuestionView.index shown = 2.
Proof.
  destruct (Map_get freshGame "p1") as [gameState|] eqn:Hget; [|discriminate].
  destruct (X21_skip_shows_what_follows freshGame "p1" gameState freshGame_reachable Hget)
    as [out [gameStates' [gameState' [E [Hs [_ [_ [_ [_ Hcases]]]]]]]]].
  { vm_compute in Hget. injection Hget as <-. reflexivity. }
  vm_compute in Hget. injection Hget as <-.
  destruct Hcases as [[_ [_ [nextQ [_ Hn]]]]|[Hlast _]];
    [|exfalso; vm_compute in Hlast; apply Hlast; reflexivity].
  exists out, gameStates'. eexists. split; [exact E|]. split; [exact Hs|].
  split; [exact Hn|]. reflexivity.
Defined.

(** X22.  In every reachable session the streak lies between 0 and the
    number of answered questions, so it never exceeds the number of
    questions of the game. *)
Theorem X22_streak_bounded_by_answers
    (gameStates : Store) (playerId : string) (gameState : GameState.t)
    (Hreach : reachable gameStates)
    (Hget : Map_get gameStates playerId = Some gameState) :
  0 <= GameState.streak gameState <= answeredCount gameState
  /\ answeredCount gameState <= array_length (GameState.questions gameState).
Proof.
  destruct (session_accounting _ Hreach _ _ Hget) as [_ [_ [_ [_ [_ Hstreak]]]]].
  split; [exact Hstreak|].
  unfold answeredCount, array_length.
  pose proof (filter_length_bound Question.answered (GameState.questions gameState)).
  lia.
Qed.

Lemma X22_streak_bounded_by_answers_witness :
  exists gameState,
    Map_get twoCorrectLetters "p1" = Some gameState
    /\ GameState.streak gameState = 2
    /\ answeredCount gameState = 2.
Proof.
  destruct (Map_get twoCorrectLetters "p1") as [gameState|] eqn:Hget; [|discriminate].
  assert (Hreach : reachable twoCorrectLetters) by (eexists; reflexivity).
  destruct (X22_streak_bounded_by_answers twoCorrectLetters "p1" gameState Hreach Hget)
    as [[_ Hle] _].
  exists gameState. split; [reflexivity|].
  vm_compute in Hget. injection Hget as <-. split; reflexivity.
Defined.

(* ================================================================== *)
(** ** Further properties: answers given as text *)
(* ================================================================== *)

Lemma upper_length_cons (c : ascii) (s : string) :
  String.length (toUpperCase (String c s))
  = ((if (code c =? 223)%Z then 2 else 1) + String.length (toUpperCase s))%nat.
Proof. cbn [toUpperCase]. destruct (code c =? 223); reflexivity. Qed.

Lemma upper_length_zero (s : string) :
  String.length (toUpperCase s) = 0%nat -> s = EmptyString.
Proof.
  destruct s as [|c s]; [reflexivity|]. rewrite upper_length_cons.
  destruct (code c =? 223); discriminate.
Qed.

(** Stripping white space at the front shortens the upper-cased text, unless
    there was none to strip. *)
Lemma trimStart_upper_full (s : string) :
  (String.length (toUpperCase (trimStart s)) <= String.length (toUpperCase s))%nat
  /\ (String.length (toUpperCase (trimStart s)) = String.length (toUpperCase s) ->
      trimStart s = s).
Proof.
  induction s as [|c s [IHle IHeq]]; [split; [reflexivity | reflexivity]|].
  cbn [trimStart]. destruct (isWhiteSpace c) eqn:W; [|split; [lia | reflexivity]].
  rewrite (upper_length_cons c s).
  destruct (code c =? 223); (split; [lia | intros H; exfalso; lia]).
Qed.

Lemma trimEnd_upper_full (s : string) :
  (String.length (toUpperCase (trimEnd s)) <= String.length (toUpperCase s))%nat
  /\ (String.length (toUpperCase (trimEnd s)) = String.length (toUpperCase s) ->
      trimEnd s = s).
Proof.
  induction s as [|c s [IHle IHeq]]; [split; [reflexivity | reflexivity]|].
  cbn [trimEnd]. destruct (trimEnd s) as [|c' t] eqn:E.
  - destruct (isWhiteSpace c).
    + rewrite (upper_length_cons c s). cbn [toUpperCase String.length].
      destruct (code c =? 223); (split; [lia | intros H; exfalso; lia]).
    + rewrite !upper_length_cons. cbn [toUpperCase String.length] in *.
      split; [lia|]. intros H. f_equal. symmetry. apply upper_length_zero. lia.
  - rewrite (upper_length_cons c (String c' t)), (upper_length_cons c s).
    split; [lia|]. intros H. f_equal. apply IHeq. lia.
Qed.

Lemma trim_upper_full (s : string) :
  toUpperCase (trim s) = toUpperCase s -> trim s = s.
Proof.
  unfold trim. intros H. apply (f_equal String.length) in H.
  destruct (trimStart_upper_full s) as [H1 H1eq].
  destruct (trimEnd_upper_full (trimStart s)) as [H2 H2eq].
  assert (Hstart : trimStart s = s) by (apply H1eq; lia).
  rewrite Hstart in *. apply H2eq. lia.
Qed.

(** X23.  The correct answer is upper-cased but not trimmed.  When it is
    stored with white space around it, an answer that, trimmed and
    upper-cased, is not a single letter A-D is never judged correct: on a
    session that awaits the answer to such a question the tool reports it
    incorrect and resets the streak, whatever its text. *)
Theorem X23_padded_correct_answer
    (gameStates : Store) (playerId answer : string) (gameState : GameState.t)
    (currentQuestion : Question.t)
    (Hwait : awaiting gameStates playerId gameState currentQuestion)
    (Htext : test_A_D (toUpperCase (trim answer)) = false)
    (Hpadded : trim (Question.correct currentQuestion)
               <> Question.correct currentQuestion) :
  isCorrect currentQuestion answer = false
  /\ exists out gameStates',
       answerQuestionTool playerId answer gameStates = (Return out, gameStates')
       /\ AnswerOutput.correct out = false
       /\ AnswerOutput.streak out = 0
       /\ AnswerOutput.score out = GameState.score gameState.
Proof.
  assert (Hwrong : isCorrect currentQuestion answer = false).
  { rewrite (isCorrect_text _ _ Htext).
    destruct (String.eqb_spec (toUpperCase (trim answer))
                (toUpperCase (Question.correct currentQuestion))) as [E|E];
      [|reflexivity].
    exfalso. apply Hpadded. apply trim_upper_full.
    rewrite <- trim_toUpperCase, <- E.
    now rewrite trim_toUpperCase, trim_idempotent. }
  split; [exact Hwrong|].
  destruct (answer_awaiting _ _ answer _ _ Hwait) as [out [E [Hc [Hs [Hk _]]]]].
  exists out. eexists. split; [exact E|].
  unfold answer_state in Hs, Hk. rewrite Hwrong in Hs, Hk. simpl in Hs, Hk.
  split; [congruence|]. split; assumption.
Qed.

(** The stored answer "Paris " (with a space) is not matched by " paris ". *)
Lemma X23_padded_correct_answer_witness :
  exists out gameStates',
    answerQuestionTool "p1" " paris " paddedAnswerGame = (Return out, gameStates')
    /\ AnswerOutput.correct out = false.
Proof.
  destruct (Map_get paddedAnswerGame "p1") as [gameState|] eqn:Hget; [|discriminate].
  vm_compute in Hget. injection Hget as Hgs.
  pose proof (X23_padded_correct_answer paddedAnswerGame "p1" " paris " gameState
                (Question.mk "q-1" "Geography" "easy" "Which one?"
                   ["Rome"; "Oslo"; "Bern"; "Paris "] "Paris " false None)) as H.
  rewrite <- Hgs in H.
  destruct (H (conj eq_refl eq_refl) eq_refl ltac:(discriminate))
    as [_ [out [gameStates' [E [Hc _]]]]].
  exists out, gameStates'. split; assumption.
Defined.

(* ================================================================== *)
(** ** Further properties: refused calls and the cut of the leaderboard *)
(* ================================================================== *)

(** X24.  For a player without a session the answer tool throws "No active
    game found. Please start a new game." and the hint, skip and statistics
    tools throw "No active game found."; the registry is left as it was. *)
Theorem X24_unknown_player_is_refused
    (gameStates : Store) (playerId : string)
    (Hunknown : Map_get gameStates playerId = None) :
  (forall answer,
     answerQuestionTool playerId answer gameStates
     = (Throw "No active game found. Please start a new game.", gameStates))
  /\ (forall pick draw,
        getHintTool pick draw playerId gameStates
        = (Throw "No active game found.", gameStates))
  /\ skipQuestionTool playerId gameStates = (Throw "No active game found.", gameStates)
  /\ getGameStatsTool playerId gameStates = (Throw "No active game found.", gameStates).
Proof.
  split; [intros; now apply answer_no_session|].
  split; [intros; now apply hint_no_session|].
  split; [now apply skip_no_session|].
  unfold getGameStatsTool. now rewrite Hunknown.
Qed.

Lemma X24_unknown_player_is_refused_witness :
  skipQuestionTool "dan" threePlayers = (Throw "No active game found.", threePlayers).
Proof.
  exact (proj1 (proj2 (proj2 (X24_unknown_player_is_refused threePlayers "dan" eq_refl)))).
Defined.

Lemma StronglySorted_split {A : Type} (R : A -> A -> Prop) (n : nat) (l : list A) :
  StronglySorted R l ->
  forall a b, In a (List.firstn n l) -> In b (List.skipn n l) -> R a b.
Proof.
  intros Hs. revert n. induction Hs as [|x tl Hs IH Hx]; intros n a b Ha Hb.
  - destruct n; simpl in Ha; contradiction.
  - destruct n as [|n]; simpl in Ha, Hb; [contradiction|].
    destruct Ha as [<-|Ha].
    + rewrite Forall_forall in Hx. apply Hx.
      rewrite <- (List.firstn_skipn n tl). apply in_or_app. now right.
    + now apply (IH n).
Qed.

(** X25.  The leaderboard lists everybody when at most ten players are
    registered.  With more, and numeric scores, the ten listed are the top:
    every player left off has a score no higher than each listed one. *)
Theorem X25_leaderboard_cut (gameStates : Store) :
  ((List.length gameStates <= 10)%nat ->
   Permutation (LeaderboardOutput.leaderboard (fst (getLeaderboardTool gameStates)))
     (List.map toEntry gameStates))
  /\ (Forall (fun kv => numeric (GameState.score (snd kv))) gameStates ->
      exists leftOff,
        Permutation
          (LeaderboardOutput.leaderboard (fst (getLeaderboardTool gameStates)) ++ leftOff)
          (List.map toEntry gameStates)
        /\ forall listed other,
             In listed (LeaderboardOutput.leaderboard
                          (fst (getLeaderboardTool gameStates))) ->
             In other leftOff -> score_ge listed other).
Proof.
  unfold getLeaderboardTool. cbn [fst LeaderboardOutput.leaderboard]. split.
  - intros Hsmall. rewrite List.firstn_all2; [apply sort_perm|].
    rewrite sort_length, List.length_map. exact Hsmall.
  - intros Hnum. exists (List.skipn 10 (sort (List.map toEntry gameStates))). split.
    + rewrite List.firstn_skipn. apply sort_perm.
    + apply StronglySorted_split. apply sort_sorted, toEntry_numeric, Hnum.
Qed.

Lemma X25_leaderboard_cut_witness :
  Permutation (LeaderboardOutput.leaderboard (fst (getLeaderboardTool threePlayers)))
    (List.map toEntry threePlayers)
  /\ exists leftOff,
       Permutation
         (LeaderboardOutput.leaderboard (fst (getLeaderboardTool threePlayers)) ++ leftOff)
         (List.map toEntry threePlayers).
Proof.
  destruct (X25_leaderboard_cut threePlayers) as [Hall Htop]. split.
  - apply Hall. simpl. lia.
  - destruct Htop as [leftOff [Hperm _]]; [repeat constructor; discriminate|].
    exists leftOff. exact Hperm.
Defined.
